(** * The README badge updater, [scripts/update_readme.py]

    A shallow embedding of the script and the properties its specification
    states about it.

    Conventions of the embedding.
    - Python [str] values are [string]s; a character stands for the code point
      with the same number, so the texts covered are those over the code
      points below 256.
    - A function that may raise returns a [result]; the orchestrator runs in a
      small state-and-error monad whose state records what the process printed,
      which requests it sent and what it wrote.
    - [re] patterns are embedded by the backtracking search they denote; where
      greedy and lazy choices are forced, the search is written
      deterministically and the reason is given next to the definition.  The
      replacement template of [Pattern.sub] follows CPython's
      [re._parser.parse_template] (3.12). *)

From Stdlib Require Import Bool Arith ZArith List String Ascii Lia.
From Stdlib Require Import SpecFloat DecimalString.
Import ListNotations.
Open Scope string_scope.

(** ** Exceptions and results *)

Inductive exn : Type :=
| AttributeError      (* [.get] on a value that is not a dict *)
| TypeError           (* an unhashable value used as a set element *)
| TemplateError       (* [re.error] or [IndexError] from a bad template *)
| HTTPError (code : Z)
| URLError
| OtherError (name : string).
                      (* any other exception, by the name of its class *)

Inductive result (A : Type) : Type :=
| Ret (a : A)
| Raise (e : exn).
Arguments Ret {A} a.
Arguments Raise {A} e.

(** ** Characters and strings *)

Module Str.

Definition code (c : ascii) : nat := nat_of_ascii c.

Definition in_range (lo hi : nat) (c : ascii) : bool :=
  (lo <=? code c)%nat && (code c <=? hi)%nat.

Definition is_digit (c : ascii) : bool := in_range 48 57 c.
Definition is_octdigit (c : ascii) : bool := in_range 48 55 c.
Definition is_upper (c : ascii) : bool := in_range 65 90 c.
Definition is_lower (c : ascii) : bool := in_range 97 122 c.
Definition is_ascii_letter (c : ascii) : bool := is_upper c || is_lower c.

(** [str.isspace] and the regex class [\s] on the code points below 256. *)
Definition is_space (c : ascii) : bool :=
  in_range 9 13 c || in_range 28 32 c
  || (code c =? 133)%nat || (code c =? 160)%nat.

Definition digit_val (c : ascii) : nat := code c - 48.

Definition backslash : ascii := "\"%char.
Definition newline : ascii := ascii_of_nat 10.

Fixpoint count (c : ascii) (s : string) : nat :=
  match s with
  | "" => 0
  | String a s' => (if Ascii.eqb a c then 1 else 0) + count c s'
  end.

Fixpoint forallb (p : ascii -> bool) (s : string) : bool :=
  match s with
  | "" => true
  | String a s' => p a && forallb p s'
  end.

Definition no_backslash (s : string) : bool :=
  forallb (fun a => negb (Ascii.eqb a backslash)) s.

(** The text has [p] at its front: the rest after it. *)
Fixpoint strip_prefix (p s : string) : option string :=
  match p with
  | "" => Some s
  | String a p' =>
      match s with
      | "" => None
      | String b s' => if Ascii.eqb a b then strip_prefix p' s' else None
      end
  end.

(** The lazy [.*?] followed by a literal, with [re.DOTALL]: the shortest run
    of arbitrary characters after which [needle] matches.  Returns the run and
    the text after the needle. *)
Fixpoint find_sub (needle hay : string) : option (string * string) :=
  match strip_prefix needle hay with
  | Some rest => Some ("", rest)
  | None =>
      match hay with
      | "" => None
      | String c hay' =>
          match find_sub needle hay' with
          | Some (run, rest) => Some (String c run, rest)
          | None => None
          end
      end
  end.

(** The number of lines of a text: one more than its line breaks. *)
Definition line_count (s : string) : nat := S (count newline s).

End Str.

(** ** The replacement template of [Pattern.sub]

    [expand_template tmpl g0 g1] is the text [Pattern.sub] puts in place of a
    match of a pattern with one group, [g0] being the matched text and [g1]
    the text of group 1; [None] is the exception raised for a bad template.
    The first argument is the group name being read after [\g<], if any. *)

Module Template.
Import Str.

Definition octal2 (a b : ascii) : nat := 8 * digit_val a + digit_val b.
Definition octal3 (a b c : ascii) : nat := 64 * digit_val a + octal2 b c.

Fixpoint decimal (acc : nat) (s : string) : nat :=
  match s with
  | "" => acc
  | String d s' => decimal (10 * acc + digit_val d) s'
  end.

(** [\g<name>]: ASCII digits only, and a group the pattern has (0 or 1). *)
Definition group_by_name (name g0 g1 : string) : option string :=
  match name with
  | "" => None
  | _ =>
      if forallb is_digit name then
        match decimal 0 name with
        | 0 => Some g0
        | 1 => Some g1
        | _ => None
        end
      else None
  end.

(** The table [ESCAPES] of the template parser. *)
Definition escape_char (c : ascii) : option ascii :=
  match c with
  | "a"%char => Some (ascii_of_nat 7)
  | "b"%char => Some (ascii_of_nat 8)
  | "f"%char => Some (ascii_of_nat 12)
  | "n"%char => Some (ascii_of_nat 10)
  | "r"%char => Some (ascii_of_nat 13)
  | "t"%char => Some (ascii_of_nat 9)
  | "v"%char => Some (ascii_of_nat 11)
  | "\"%char => Some backslash
  | _ => None
  end.

Definition lit (c : ascii) (k : option string) : option string :=
  option_map (String c) k.

Definition group (g : option string) (k : option string) : option string :=
  match g, k with
  | Some t, Some r => Some (t ++ r)
  | _, _ => None
  end.

Fixpoint expand (name : option string) (t g0 g1 : string) {struct t}
  : option string :=
  match name with
  | Some acc =>
      match t with
      | "" => None
      | String c rest =>
          if Ascii.eqb c ">"
          then group (group_by_name acc g0 g1) (expand None rest g0 g1)
          else expand (Some (acc ++ String c "")) rest g0 g1
      end
  | None =>
      match t with
      | "" => Some ""
      | String c rest =>
          if negb (Ascii.eqb c backslash) then lit c (expand None rest g0 g1)
          else
            match rest with
            | "" => None
            | String e r1 =>
                if Ascii.eqb e "g" then
                  match r1 with
                  | String "<" r2 => expand (Some "") r2 g0 g1
                  | _ => None
                  end
                else if Ascii.eqb e "0" then
                  match r1 with
                  | String d1 r2 =>
                      if is_octdigit d1 then
                        match r2 with
                        | String d2 r3 =>
                            if is_octdigit d2
                            then lit (ascii_of_nat (octal2 d1 d2))
                                     (expand None r3 g0 g1)
                            else lit (ascii_of_nat (digit_val d1))
                                     (expand None r2 g0 g1)
                        | "" => lit (ascii_of_nat (digit_val d1)) (Some "")
                        end
                      else lit zero (expand None r1 g0 g1)
                  | "" => lit zero (Some "")
                  end
                else if is_digit e then
                  match r1 with
                  | String d1 r2 =>
                      if is_digit d1 then
                        match r2 with
                        | String d2 r3 =>
                            if is_octdigit e && is_octdigit d1 && is_octdigit d2
                            then
                              if (octal3 e d1 d2 <=? 255)%nat
                              then lit (ascii_of_nat (octal3 e d1 d2))
                                       (expand None r3 g0 g1)
                              else None
                            else None
                        | "" => None
                        end
                      else
                        if (digit_val e =? 1)%nat
                        then group (Some g1) (expand None r1 g0 g1)
                        else None
                  | "" => if (digit_val e =? 1)%nat then Some g1 else None
                  end
                else
                  match escape_char e with
                  | Some x => lit x (expand None r1 g0 g1)
                  | None =>
                      if is_ascii_letter e then None
                      else lit backslash (lit e (expand None r1 g0 g1))
                  end
            end
      end
  end.

Definition expand_template (tmpl g0 g1 : string) : option string :=
  expand None tmpl g0 g1.

End Template.

(** ** Marker replacement *)

Definition start_marker (marker_key : string) : string :=
  "<!-- PROJECTS:" ++ marker_key ++ ":START -->".

Definition end_marker (marker_key : string) : string :=
  "<!-- PROJECTS:" ++ marker_key ++ ":END -->".

(** [pattern.search] for [re.escape(start) + "(.*?)" + re.escape(end)] with
    [re.DOTALL]: the leftmost position where [start] matches and [end]
    follows somewhere; group 1 is the shortest text up to an [end].  Returns
    the text before the match, group 1, and the text after the match. *)
Fixpoint pattern_search (start end_ text : string)
  : option (string * string * string) :=
  match
    match Str.strip_prefix start text with
    | Some rest => Str.find_sub end_ rest
    | None => None
    end
  with
  | Some (inner, post) => Some ("", inner, post)
  | None =>
      match text with
      | "" => None
      | String c text' =>
          match pattern_search start end_ text' with
          | Some (pre, inner, post) => Some (String c pre, inner, post)
          | None => None
          end
      end
  end.

Definition replace_between_markers (readme_text marker_key inner_text : string)
  : result string :=
  let start := start_marker marker_key in
  let end_ := end_marker marker_key in
  match pattern_search start end_ readme_text with
  | None => Ret readme_text
  | Some (pre, old, post) =>
      let replacement := start ++ inner_text ++ end_ in
      match Template.expand_template replacement (start ++ old ++ end_) old with
      | Some new => Ret (pre ++ new ++ post)
      | None => Raise TemplateError
      end
  end.


(** ** The marker scanner, [MARKER_PAIR_RE] and [collect_readme_marker_keys]

    The pattern is
    [(<!--\s*PROJECTS:([A-Za-z0-9\+\-]+):START\s*-->)(.*?)(<!--\s*PROJECTS:\2:END\s*-->)]
    with [re.DOTALL].  Each greedy run is followed by a literal whose first
    character is outside the run's class ([\s*] by [P] or [-], the key class
    by [:]), so a match can only take the whole run and backtracking into a
    run never succeeds: the runs are taken whole.  The lazy group tries the
    end sentinel at each offset in turn. *)

Module Scanner.
Import Str.

Definition is_key_char (c : ascii) : bool :=
  is_upper c || is_lower c || is_digit c
  || Ascii.eqb c "+" || Ascii.eqb c "-".

Fixpoint skip_spaces (s : string) : string :=
  match s with
  | "" => ""
  | String c s' => if is_space c then skip_spaces s' else s
  end.

Fixpoint take_key (s : string) : string * string :=
  match s with
  | "" => ("", "")
  | String c s' =>
      if is_key_char c
      then let (k, rest) := take_key s' in (String c k, rest)
      else ("", s)
  end.

Definition and_then {A B : Type} (o : option A) (f : A -> option B)
  : option B :=
  match o with
  | Some a => f a
  | None => None
  end.

(** [<!--\s*PROJECTS:(key):START\s*-->] at the front: the key and the rest. *)
Definition match_start (text : string) : option (string * string) :=
  and_then (strip_prefix "<!--" text) (fun r1 =>
  and_then (strip_prefix "PROJECTS:" (skip_spaces r1)) (fun r2 =>
  let (key, r3) := take_key r2 in
  if String.eqb key "" then None else
  and_then (strip_prefix ":START" r3) (fun r4 =>
  and_then (strip_prefix "-->" (skip_spaces r4)) (fun r5 =>
  Some (key, r5))))).

(** [<!--\s*PROJECTS:\2:END\s*-->] at the front, [\2] being [key]. *)
Definition match_end (key text : string) : option string :=
  and_then (strip_prefix "<!--" text) (fun r1 =>
  and_then (strip_prefix "PROJECTS:" (skip_spaces r1)) (fun r2 =>
  and_then (strip_prefix key r2) (fun r3 =>
  and_then (strip_prefix ":END" r3) (fun r4 =>
  strip_prefix "-->" (skip_spaces r4))))).

(** [(.*?)] and the end sentinel: the text after the first end sentinel. *)
Fixpoint find_end (key text : string) : option string :=
  match match_end key text with
  | Some rest => Some rest
  | None =>
      match text with
      | "" => None
      | String _ text' => find_end key text'
      end
  end.

(** The whole pattern at the front: the key and the text after the match. *)
Definition match_pair (text : string) : option (string * string) :=
  and_then (match_start text) (fun '(key, r) =>
  and_then (find_end key r) (fun rest => Some (key, rest))).

(** [MARKER_PAIR_RE.findall], projected on group 2.  After a match the scan
    resumes at its end: [skip] counts the characters of the current match
    still to pass. *)
Fixpoint findall_keys (skip : nat) (text : string) : list string :=
  match text with
  | "" => []
  | String _ text' =>
      match skip with
      | S k => findall_keys k text'
      | O =>
          match match_pair text with
          | Some (key, rest) =>
              key :: findall_keys (length text' - length rest) text'
          | None => findall_keys 0 text'
          end
      end
  end.

(** A Python [set] of strings, as the list of its elements without
    repetition; the order of the list carries no meaning. *)
Fixpoint set_of (l : list string) : list string :=
  match l with
  | [] => []
  | x :: l' => x :: filter (fun y => negb (String.eqb x y)) (set_of l')
  end.

Definition collect_readme_marker_keys (readme_text : string) : list string :=
  set_of (findall_keys 0 readme_text).

End Scanner.

(** ** Parsed JSON *)

Set Warnings "-register-all".

Inductive json : Type :=
| JNull
| JBool (b : bool)
| JInt (n : Z)
| JFloat (f : spec_float)
| JStr (s : string)
| JList (xs : list json)
| JObj (fields : list (string * json)).

Module Py.
Import Str.

(** Truth value of an object, as [not x] tests it. *)
Definition truthy (v : json) : bool :=
  match v with
  | JNull => false
  | JBool b => b
  | JInt n => negb (n =? 0)%Z
  | JFloat (S754_zero _) => false
  | JFloat _ => true
  | JStr s => negb (String.eqb s "")
  | JList xs => match xs with [] => false | _ => true end
  | JObj fs => match fs with [] => false | _ => true end
  end.

(** The dict [json.load] builds for an object: of two members with the same
    name the later one wins. *)
Fixpoint lookup (k : string) (fields : list (string * json)) : option json :=
  match fields with
  | [] => None
  | (k', v) :: rest =>
      match lookup k rest with
      | Some v' => Some v'
      | None => if String.eqb k k' then Some v else None
      end
  end.

(** [item.get(k)]: [None] for an absent key; only a dict has [get]. *)
Definition get (item : json) (k : string) : result json :=
  match item with
  | JObj fields =>
      match lookup k fields with
      | Some v => Ret v
      | None => Ret JNull
      end
  | _ => Raise AttributeError
  end.

(** What [x in s] compares for a set [s]: objects are the same element when
    they are equal, and numbers are equal across [bool], [int] and [float].
    A hashable value is represented by a canonical key; lists and dicts have
    none. *)
Inductive hkey : Type :=
| HNone
| HStr (s : string)
| HInt (n : Z)
| HFrac (neg : bool) (m : positive) (e : Z)
| HInf (neg : bool)
| HNan.

Definition signed (neg : bool) (n : Z) : Z := if neg then (- n)%Z else n.

(** The finite float [m * 2^e]: an integer, or an odd [m] with [e < 0]. *)
Fixpoint float_key (neg : bool) (m : positive) (e : Z) : hkey :=
  if (0 <=? e)%Z then HInt (signed neg (Zpos m * 2 ^ e))
  else
    match m with
    | xO m' => float_key neg m' (e + 1)
    | _ => HFrac neg m e
    end.

Definition hash_key (v : json) : option hkey :=
  match v with
  | JNull => Some HNone
  | JBool b => Some (HInt (if b then 1 else 0))
  | JInt n => Some (HInt n)
  | JFloat (S754_zero _) => Some (HInt 0)
  | JFloat (S754_infinity s) => Some (HInf s)
  | JFloat S754_nan => Some HNan
  | JFloat (S754_finite s m e) => Some (float_key s m e)
  | JStr s => Some (HStr s)
  | JList _ => None
  | JObj _ => None
  end.

Definition hkey_eqb (a b : hkey) : bool :=
  match a, b with
  | HNone, HNone => true
  | HStr s, HStr t => String.eqb s t
  | HInt n, HInt m => (n =? m)%Z
  | HFrac s m e, HFrac s' m' e' =>
      Bool.eqb s s' && (m =? m')%positive && (e =? e')%Z
  | HInf s, HInf s' => Bool.eqb s s'
  | HNan, HNan => true
  | _, _ => false
  end.

(** [str.lower] on the code points below 256. *)
Definition lower_char (c : ascii) : ascii :=
  if is_upper c
     || (in_range 192 222 c && negb (code c =? 215)%nat)
  then ascii_of_nat (code c + 32)
  else c.

Fixpoint lower (s : string) : string :=
  match s with
  | "" => ""
  | String c s' => String (lower_char c) (lower s')
  end.

Fixpoint rstrip (s : string) : string :=
  match s with
  | "" => ""
  | String c s' =>
      match rstrip s' with
      | "" => if is_space c then "" else String c ""
      | r => String c r
      end
  end.

Definition strip (s : string) : string := rstrip (Scanner.skip_spaces s).

(** [urllib.parse.quote(s, safe="")]: the UTF-8 bytes of [s], each byte
    outside letters, digits and [_.-~] written [%XX]. *)
Definition hex_digit (n : nat) : ascii :=
  if (n <? 10)%nat then ascii_of_nat (48 + n) else ascii_of_nat (55 + n).

Definition percent (byte : nat) : string :=
  String "%"
    (String (hex_digit (byte / 16)) (String (hex_digit (byte mod 16)) "")).

Definition unreserved (c : ascii) : bool :=
  is_upper c || is_lower c || is_digit c
  || Ascii.eqb c "_" || Ascii.eqb c "." || Ascii.eqb c "-" || Ascii.eqb c "~".

Definition quote_char (c : ascii) : string :=
  if (code c <? 128)%nat then
    if unreserved c then String c "" else percent (code c)
  else percent (192 + code c / 64) ++ percent (128 + code c mod 64).

Fixpoint quote (s : string) : string :=
  match s with
  | "" => ""
  | String c s' => quote_char c ++ quote s'
  end.

End Py.

(** ** The script's pure functions

    [str(x)] of a float, a list or a dict is a fixed text that none of the
    properties depends on; it is the parameter [repr_other]. *)

Section Script.
Import Str Py.

Variable repr_other : json -> string.

Definition py_str (v : json) : string :=
  match v with
  | JStr s => s
  | JNull => "None"
  | JBool true => "True"
  | JBool false => "False"
  | JInt n => NilZero.string_of_int (Z.to_int n)
  | _ => repr_other v
  end.

Definition LANG_MAP : list (string * (string * string)) :=
  [ ("c", ("C", "C"));
    ("c++", ("C++", "cpp"));
    ("cpp", ("C++", "cpp"));
    ("python", ("Python", "python"));
    ("py", ("Python", "python"));
    ("typescript", ("TypeScript", "typescript"));
    ("ts", ("TypeScript", "typescript"));
    ("shell", ("Shell", "shell"));
    ("bash", ("Shell", "shell"));
    ("sh", ("Shell", "shell"));
    ("zsh", ("Shell", "shell"));
    ("docker", ("Docker", "docker"));
    ("git", ("Git", "git")) ].

(** [d.get(k)] for a dict written as the list of its items. *)
Fixpoint dict_get {V : Type} (k : string) (d : list (string * V)) : option V :=
  match d with
  | [] => None
  | (k', v) :: d' => if String.eqb k k' then Some v else dict_get k d'
  end.

(** [d[k] = v]: an existing key keeps its place. *)
Fixpoint dict_set {V : Type} (k : string) (v : V) (d : list (string * V))
  : list (string * V) :=
  match d with
  | [] => [(k, v)]
  | (k', v') :: d' =>
      if String.eqb k k' then (k, v) :: d' else (k', v') :: dict_set k v d'
  end.

Definition normalize_language (raw : json) : option (string * string) :=
  if negb (truthy raw) then None
  else dict_get (lower (strip (py_str raw))) LANG_MAP.

Definition build_badge_md (name : json) (owner : string) (repo : json)
  : string :=
  let encoded := quote (py_str name) in
  let img :=
    "https://img.shields.io/static/v1?label=&message=" ++ encoded
    ++ "&color=000605&logo=github&logoColor=FFFFFF&labelColor=000605" in
  let href := "https://github.com/" ++ owner ++ "/" ++ py_str repo in
  "[![" ++ py_str name ++ "](" ++ img ++ ")](" ++ href ++ ")".

End Script.

(** ** The process and its surroundings

    The surroundings answer the script where it asks them: the two
    environment variables, the two files, the network, and the order in
    which a set is iterated.  Of the ways in which reading a file or a
    request can fail the embedding has those the script tells apart and one
    more for every other exception.  Printing a line and writing the README
    are taken to succeed. *)

Inductive stream : Type := Stdout | Stderr.

(** The lines the script prints, by what they report. *)
Inductive message : Type :=
| MsgProjectsNotFound
| MsgInvalidJSON
| MsgNotAList
| MsgReadmeNotFound
| MsgNoMarkers
| MsgIncomplete (idx : nat)
| MsgUnmapped (lang : json)
| MsgGetHTTP (owner : string) (repo : json) (code : Z)
| MsgGetURL (owner : string) (repo : json)
| MsgPostStatus (status : Z)
| MsgPost422 (repo : json)
| MsgPostHTTP (code : Z)
| MsgPostURL
| MsgCreated (owner : string) (repo : json)
| MsgNotCreated (owner : string) (repo : json)
| MsgNoPAT
| MsgUpdated
| MsgNoChanges.

(** The requests sent to the hosting API. *)
Inductive request : Type :=
| GET (owner : string) (repo : json) (token : string)
| POST (repo : json) (token : string) (private : bool) (description : string).

(** What [urlopen] does with a request.  It returns a response, or raises
    [HTTPError] with the status, or raises [URLError], or raises an
    exception that is neither: one that arises before anything goes over the
    network ([http.client.InvalidURL] for a repo with a space, [ValueError]
    for a token with a line break) or after ([RemoteDisconnected],
    [TimeoutError] while the response is read).  An [HTTPError] carries the
    body of the response, which the script reads in one place
    ([err.read()], line 171); [HTTPErrBroken] is an [HTTPError] whose body
    cannot be read, [name] being the exception that reading it raises. *)
Inductive url_outcome : Type :=
| Response (status : Z)
| HTTPErr (code : Z)
| URLErr
| HTTPErrBroken (code : Z) (name : string)
| OtherErr (name : string).

(** What [load_json] does: [LoadFailed] stands for any exception other than
    the two that [main] catches ([UnicodeDecodeError], [PermissionError],
    [RecursionError], ...). *)
Inductive load_outcome : Type :=
| LoadOk (data : json)
| LoadNotFound          (* [FileNotFoundError] *)
| LoadInvalid           (* [json.JSONDecodeError] *)
| LoadFailed (name : string).

(** What reading the README does: [ReadFailed] stands for any exception
    other than [FileNotFoundError] ([UnicodeDecodeError] for a file that is
    not UTF-8, [PermissionError], [IsADirectoryError], ...). *)
Inductive read_outcome : Type :=
| ReadOk (text : string)
| ReadNotFound          (* [FileNotFoundError] *)
| ReadFailed (name : string).

Record world : Type := {
  env_GH_OWNER : option string;
  env_GH_PAT : option string;
  projects_json : load_outcome;
  readme_md : read_outcome;
  (** the order in which this run iterates over a set with these elements *)
  key_order : list string -> list string;
  (** the answer to a request, given the requests sent before it *)
  network : list request -> request -> url_outcome
}.

(** What the process has done so far: the lines it has printed, the
    requests it has handed to [urlopen], in the order of the calls, and the
    text it has written to the README.  A request is recorded when the
    script makes the call; what became of it, and whether anything went over
    the network, is the answer to the call (see [url_outcome]). *)
Record proc : Type := {
  printed : list (stream * message);
  sent : list request;
  written : option string
}.

Definition proc0 : proc := {| printed := []; sent := []; written := None |}.

Inductive outcome (A : Type) : Type :=
| Ok (a : A)
| Exit (code : Z)        (* [sys.exit(code)] *)
| Raised (e : exn).      (* an exception on its way up *)
Arguments Ok {A} a.
Arguments Exit {A} code.
Arguments Raised {A} e.

Definition M (A : Type) : Type := proc -> outcome A * proc.

Definition ret {A : Type} (a : A) : M A := fun p => (Ok a, p).

Definition bind {A B : Type} (m : M A) (k : A -> M B) : M B :=
  fun p =>
    match m p with
    | (Ok a, p') => k a p'
    | (Exit c, p') => (Exit c, p')
    | (Raised e, p') => (Raised e, p')
    end.

Declare Scope proc_scope.
Delimit Scope proc_scope with proc.
Notation "x <- m ;; k" := (bind m (fun x => k))
  (at level 61, m at next level, right associativity) : proc_scope.
Notation "m ;; k" := (bind m (fun _ => k))
  (at level 61, right associativity) : proc_scope.
Open Scope proc_scope.

Definition emit (s : stream) (m : message) : M unit :=
  fun p => (Ok tt, {| printed := (printed p ++ [(s, m)])%list;
                      sent := sent p; written := written p |}).

Definition print : message -> M unit := emit Stdout.
Definition eprint : message -> M unit := emit Stderr.

Definition sys_exit {A : Type} (code : Z) : M A := fun p => (Exit code, p).
Definition raise {A : Type} (e : exn) : M A := fun p => (Raised e, p).

Definition lift {A : Type} (r : result A) : M A :=
  match r with
  | Ret a => ret a
  | Raise e => raise e
  end.

(** [try: m  except Exception: ...]: the handler sees no [sys.exit]. *)
Definition try_except {A : Type} (m : M A) : M (option A) :=
  fun p =>
    match m p with
    | (Ok a, p') => (Ok (Some a), p')
    | (Exit c, p') => (Exit c, p')
    | (Raised _, p') => (Ok None, p')
    end.

Definition write_readme (text : string) : M unit :=
  fun p => (Ok tt, {| printed := printed p; sent := sent p;
                      written := Some text |}).

(** The status the process ends with. *)
Definition exit_status {A : Type} (o : outcome A) : Z :=
  match o with
  | Ok _ => 0
  | Exit c => c
  | Raised _ => 1
  end.

(** ** The script *)

Section Main.
Import Str Py.

Variable repr_other : json -> string.
Variable w : world.

(** [urlopen(req)]: the call is recorded and the surroundings answer it. *)
Definition urlopen (req : request) : M url_outcome :=
  fun p => (Ok (network w (sent p) req),
            {| printed := printed p; sent := (sent p ++ [req])%list;
               written := written p |}).

Definition GH_OWNER : string :=
  match strip (match env_GH_OWNER w with Some v => v | None => "" end) with
  | "" => "Thhundder"
  | v => v
  end.

Definition GH_PAT : string :=
  strip (match env_GH_PAT w with Some v => v | None => "" end).

Definition is_2xx (status : Z) : bool :=
  (200 <=? status)%Z && (status <? 300)%Z.

Definition github_repo_exists (owner : string) (repo : json) (token : string)
  : M bool :=
  resp <- urlopen (GET owner repo token) ;;
  match resp with
  | Response status => ret (is_2xx status)
  | HTTPErr code | HTTPErrBroken code _ =>
      if (code =? 404)%Z then ret false
      else eprint (MsgGetHTTP owner repo code) ;; raise (HTTPError code)
  | URLErr => eprint (MsgGetURL owner repo) ;; raise URLError
  | OtherErr name => raise (OtherError name)
  end.

Definition github_create_repo (owner : string) (repo : json) (token : string)
    (private : bool) (description : string) : M bool :=
  resp <- urlopen (POST repo token private description) ;;
  match resp with
  | Response status =>
      if is_2xx status then ret true
      else eprint (MsgPostStatus status) ;; ret false
  | HTTPErr code =>
      if (code =? 422)%Z then eprint (MsgPost422 repo) ;; ret false
      else eprint (MsgPostHTTP code) ;; ret false
  | HTTPErrBroken code name =>
      (* the line for another status holds the body: [err.read()] raises
         before anything is printed *)
      if (code =? 422)%Z then eprint (MsgPost422 repo) ;; ret false
      else raise (OtherError name)
  | URLErr => eprint MsgPostURL ;; ret false
  | OtherErr name => raise (OtherError name)
  end.

(** The three collections the entry loop fills. *)
Record groups : Type := {
  badges_by_key : list (string * list string);
  seen_by_key : list (string * list hkey);
  repos_needed : list (string * json)
}.

Definition groups0 : groups :=
  {| badges_by_key := []; seen_by_key := []; repos_needed := [] |}.

Definition get_list {V : Type} (k : string) (d : list (string * list V))
  : list V :=
  match dict_get k d with
  | Some l => l
  | None => []
  end.

(** One turn of the loop over [enumerate(data, 1)]. *)
Definition process_entry (idx : nat) (item : json) (g : groups) : M groups :=
  name <- lift (get item "name") ;;
  lang <- lift (get item "language") ;;
  repo <- lift (get item "repo") ;;
  if negb (truthy name) || negb (truthy lang) || negb (truthy repo)
  then eprint (MsgIncomplete idx) ;; ret g
  else
    match normalize_language repr_other lang with
    | None => eprint (MsgUnmapped lang) ;; ret g
    | Some (_display, key) =>
        let badge := build_badge_md repr_other name GH_OWNER repo in
        let g1 :=
          match dict_get key (badges_by_key g) with
          | Some _ => g
          | None =>
              {| badges_by_key := dict_set key [] (badges_by_key g);
                 seen_by_key := dict_set key [] (seen_by_key g);
                 repos_needed := repos_needed g |}
          end in
        match hash_key repo with
        | None => raise TypeError
        | Some h =>
            let seen := get_list key (seen_by_key g1) in
            let g2 :=
              if existsb (hkey_eqb h) seen then g1
              else
                {| badges_by_key :=
                     dict_set key
                       (get_list key (badges_by_key g1) ++ [badge])%list
                       (badges_by_key g1);
                   seen_by_key :=
                     dict_set key (seen ++ [h])%list (seen_by_key g1);
                   repos_needed := repos_needed g1 |} in
            ret {| badges_by_key := badges_by_key g2;
                   seen_by_key := seen_by_key g2;
                   repos_needed :=
                     (repos_needed g2 ++ [(GH_OWNER, repo)])%list |}
        end
    end.

Fixpoint entry_loop (idx : nat) (data : list json) (g : groups) : M groups :=
  match data with
  | [] => ret g
  | item :: rest =>
      g' <- process_entry idx item g ;;
      entry_loop (S idx) rest g'
  end.

(** One turn of the loop over [repos_needed]: the existence check stands
    inside [try ... except Exception: continue], the creation outside. *)
Definition ensure_repo (owner : string) (repo : json) : M unit :=
  r <- try_except (github_repo_exists owner repo GH_PAT) ;;
  match r with
  | None => ret tt
  | Some true => ret tt
  | Some false =>
      created <- github_create_repo owner repo GH_PAT false "" ;;
      if created then print (MsgCreated owner repo)
      else eprint (MsgNotCreated owner repo)
  end.

Fixpoint ensure_repos (repos : list (string * json)) : M unit :=
  match repos with
  | [] => ret tt
  | (owner, repo) :: rest => ensure_repo owner repo ;; ensure_repos rest
  end.

Definition reconcile (repos : list (string * json)) : M unit :=
  match repos with
  | [] => ret tt
  | _ =>
      if String.eqb GH_PAT "" then eprint MsgNoPAT
      else ensure_repos repos
  end.

(** One turn of the loop over the marker keys of the README. *)
Definition inject_key (g : groups) (key : string) (new_readme : string)
  : M string :=
  let badges := get_list key (badges_by_key g) in
  let inner := match badges with [] => "" | _ => String.concat " " badges end in
  lift (replace_between_markers new_readme key inner).

Fixpoint inject (g : groups) (keys : list string) (new_readme : string)
  : M string :=
  match keys with
  | [] => ret new_readme
  | key :: rest =>
      r <- inject_key g key new_readme ;;
      inject g rest r
  end.

Definition main : M unit :=
  data <- match projects_json w with
          | LoadOk data => ret data
          | LoadNotFound => eprint MsgProjectsNotFound ;; sys_exit 1
          | LoadInvalid => eprint MsgInvalidJSON ;; sys_exit 1
          | LoadFailed name => raise (OtherError name)
          end ;;
  items <- match data with
           | JList items => ret items
           | _ => eprint MsgNotAList ;; sys_exit 1
           end ;;
  readme <- match readme_md w with
            | ReadOk text => ret text
            | ReadNotFound => eprint MsgReadmeNotFound ;; sys_exit 1
            | ReadFailed name => raise (OtherError name)
            end ;;
  let marker_keys_in_readme := Scanner.collect_readme_marker_keys readme in
  match marker_keys_in_readme with
  | [] => eprint MsgNoMarkers
  | _ => ret tt
  end ;;
  g <- entry_loop 1 items groups0 ;;
  reconcile (repos_needed g) ;;
  new_readme <- inject g (key_order w marker_keys_in_readme) readme ;;
  if negb (String.eqb new_readme readme)
  then write_readme new_readme ;; print MsgUpdated
  else print MsgNoChanges.

(** A run of the script from a fresh process. *)
Definition run : outcome unit * proc := main proc0.

End Main.

(** ** Notions of the specification *)

(** A valid entry, as the loop keeps it: its name, the marker key of its
    language, and its repo. *)
Record entry : Type := {
  e_name : json;
  e_key : string;
  e_repo : json
}.

Definition is_object (v : json) : bool :=
  match v with
  | JObj _ => true
  | _ => false
  end.

Definition field (k : string) (fields : list (string * json)) : json :=
  match Py.lookup k fields with
  | Some v => v
  | None => JNull
  end.

Definition remove_field (k : string) (fields : list (string * json))
  : list (string * json) :=
  filter (fun kv => negb (String.eqb k (fst kv))) fields.

Definition hashable (v : json) : bool :=
  match Py.hash_key v with
  | Some _ => true
  | None => false
  end.

(** Two repo values that a set takes for the same element. *)
Definition same_repo (a b : json) : bool :=
  match Py.hash_key a, Py.hash_key b with
  | Some x, Some y => Py.hkey_eqb x y
  | _, _ => false
  end.

(** Deduplication by repo: the first occurrence wins, the order is kept. *)
Fixpoint first_per_repo (l : list entry) : list entry :=
  match l with
  | [] => []
  | e :: l' =>
      e :: filter (fun e' => negb (same_repo (e_repo e) (e_repo e')))
                  (first_per_repo l')
  end.

(** [kept] is [l] with some elements left out, the others in their order. *)
Inductive subsequence {A : Type} : list A -> list A -> Prop :=
| sub_nil : subsequence [] []
| sub_skip (x : A) (kept l : list A) :
    subsequence kept l -> subsequence kept (x :: l)
| sub_keep (x : A) (kept l : list A) :
    subsequence kept l -> subsequence (x :: kept) (x :: l).

(** The repositories whose existence was checked, in the order of the
    checks. *)
Definition existence_checks (reqs : list request) : list (string * json) :=
  flat_map (fun r => match r with
                     | GET owner repo _ => [(owner, repo)]
                     | POST _ _ _ _ => []
                     end) reqs.

(** The status the hosting API answered with, if it answered. *)
Definition status_of (o : url_outcome) : option Z :=
  match o with
  | Response s => Some s
  | HTTPErr c | HTTPErrBroken c _ => Some c
  | URLErr => None
  | OtherErr _ => None
  end.

(** A failure of the existence check: a failure status other than 404, or
    no answer, or any other exception. *)
Definition check_failed (o : url_outcome) : bool :=
  match o with
  | Response _ => false
  | HTTPErr c | HTTPErrBroken c _ => negb (c =? 404)%Z
  | URLErr => true
  | OtherErr _ => true
  end.

(** The failures of the existence check that come as [HTTPError] or
    [URLError], the two that [github_repo_exists] catches. *)
Definition check_caught (o : url_outcome) : bool :=
  match o with
  | Response _ => false
  | HTTPErr c | HTTPErrBroken c _ => negb (c =? 404)%Z
  | URLErr => true
  | OtherErr _ => false
  end.

(** The answer to the existence check that lets the loop go on to the
    creation: the check returns false. *)
Definition reports_missing (o : url_outcome) : bool :=
  match o with
  | Response s => negb (is_2xx s)
  | HTTPErr c | HTTPErrBroken c _ => (c =? 404)%Z
  | URLErr => false
  | OtherErr _ => false
  end.

(** The exception that passes out of [github_create_repo] on this answer,
    if one does: any exception but [HTTPError] and [URLError], and the one
    from reading the body of an [HTTPError] with a status other than 422. *)
Definition creation_raises (o : url_outcome) : option exn :=
  match o with
  | HTTPErrBroken c name =>
      if (c =? 422)%Z then None else Some (OtherError name)
  | OtherErr name => Some (OtherError name)
  | _ => None
  end.

(** A key has a set of repos only if it has a list of badges. *)
Definition aligned (g : groups) : Prop :=
  forall k, dict_get k (badges_by_key g) = None ->
            dict_get k (seen_by_key g) = None.

(** Whether the repo of an entry is among the keys seen. *)
Definition seen_in (seen : list Py.hkey) (e : entry) : bool :=
  match Py.hash_key (e_repo e) with
  | Some h => existsb (Py.hkey_eqb h) seen
  | None => false
  end.

(** The process after it has printed further lines. *)
Definition add_msgs (p : proc) (msgs : list (stream * message)) : proc :=
  {| printed := (printed p ++ msgs)%list;
     sent := sent p; written := written p |}.

Section Spec.
Import Str Py.

Variable repr_other : json -> string.
Variable w : world.

Definition valid_entry (item : json) : option entry :=
  match item with
  | JObj fields =>
      let name := field "name" fields in
      let lang := field "language" fields in
      let repo := field "repo" fields in
      if truthy name && truthy lang && truthy repo then
        match normalize_language repr_other lang with
        | Some (_, key) =>
            Some {| e_name := name; e_key := key; e_repo := repo |}
        | None => None
        end
      else None
  | _ => None
  end.

Fixpoint valid_entries (data : list json) : list entry :=
  match data with
  | [] => []
  | item :: rest =>
      match valid_entry item with
      | Some e => e :: valid_entries rest
      | None => valid_entries rest
      end
  end.

Definition badge_of (e : entry) : string :=
  build_badge_md repr_other (e_name e) (GH_OWNER w) (e_repo e).

(** The valid entries whose language has the marker key [key], in the order
    of the input. *)
Definition entries_for (key : string) (data : list json) : list entry :=
  filter (fun e => String.eqb (e_key e) key) (valid_entries data).

(** Modelled on the wording of the specification: the badge group of a key
    is the sequence of the badges of the valid entries with that key,
    deduplicated by repo. *)
Definition spec_badge_group (key : string) (data : list json) : list string :=
  map badge_of (first_per_repo (entries_for key data)).

(** Every element is an object, and the repo of every valid entry can be a
    set element. *)
Definition well_formed (data : list json) : bool :=
  List.forallb is_object data
  && List.forallb (fun e => hashable (e_repo e)) (valid_entries data).

(** No badge of the data holds a backslash. *)
Definition plain (data : list json) : bool :=
  no_backslash (GH_OWNER w)
  && List.forallb (fun e => no_backslash (py_str repr_other (e_name e))
                            && no_backslash (py_str repr_other (e_repo e)))
                  (valid_entries data).

(** What the loop body does with a valid entry whose repo can be a set
    element. *)
Definition push_entry (g : groups) (e : entry) : groups :=
  match hash_key (e_repo e) with
  | None => g
  | Some h =>
      let key := e_key e in
      let g1 :=
        match dict_get key (badges_by_key g) with
        | Some _ => g
        | None =>
            {| badges_by_key := dict_set key [] (badges_by_key g);
               seen_by_key := dict_set key [] (seen_by_key g);
               repos_needed := repos_needed g |}
        end in
      let seen := get_list key (seen_by_key g1) in
      let g2 :=
        if existsb (hkey_eqb h) seen then g1
        else
          {| badges_by_key :=
               dict_set key
                 (get_list key (badges_by_key g1) ++ [badge_of e])%list
                 (badges_by_key g1);
             seen_by_key := dict_set key (seen ++ [h])%list (seen_by_key g1);
             repos_needed := repos_needed g1 |} in
      {| badges_by_key := badges_by_key g2;
         seen_by_key := seen_by_key g2;
         repos_needed := (repos_needed g2 ++ [(GH_OWNER w, e_repo e)])%list |}
  end.

(** The warning for an object that is no valid entry. *)
Definition skip_message (idx : nat) (fields : list (string * json)) : message :=
  if truthy (field "name" fields) && truthy (field "language" fields)
     && truthy (field "repo" fields)
  then MsgUnmapped (field "language" fields)
  else MsgIncomplete idx.

(** The four conditions on which the script calls [sys.exit(1)]. *)
Definition fatal_condition : bool :=
  match projects_json w with
  | LoadNotFound => true
  | LoadInvalid => true
  | LoadFailed _ => false
  | LoadOk (JList _) =>
      match readme_md w with
      | ReadNotFound => true
      | ReadOk _ => false
      | ReadFailed _ => false
      end
  | LoadOk _ => true
  end.

(** A file that the script opens is there but cannot be read or decoded:
    the exception is not one that [main] catches. *)
Definition unreadable : bool :=
  match projects_json w with
  | LoadFailed _ => true
  | LoadOk (JList _) =>
      match readme_md w with
      | ReadFailed _ => true
      | _ => false
      end
  | _ => false
  end.

(** No creation request ends in an exception that [github_create_repo]
    lets through. *)
Definition creations_return : Prop :=
  forall sent_before repo token private description,
    creation_raises
      (network w sent_before (POST repo token private description)) = None.

(** A run whose entries the loop can take in, whose badges the replacement
    template leaves as they are and whose creation requests return. *)
Definition regular_input : Prop :=
  (forall l k, In k (key_order w l) -> In k l) /\
  creations_return /\
  match projects_json w, readme_md w with
  | LoadOk (JList data), ReadOk _ =>
      well_formed data = true /\ plain data = true
  | _, _ => True
  end.

(** [urlopen] returns a response only with a success status and raises
    [HTTPError] only with another status. *)
Definition urlopen_contract : Prop :=
  forall sent_before req,
    match network w sent_before req with
    | Response s => is_2xx s = true
    | HTTPErr c | HTTPErrBroken c _ => is_2xx c = false
    | URLErr => True
    | OtherErr _ => True
    end.

End Spec.

(** The process after the scan of the README. *)
Definition after_scan (readme : string) : proc :=
  match Scanner.collect_readme_marker_keys readme with
  | [] => add_msgs proc0 [(Stderr, MsgNoMarkers)]
  | _ => proc0
  end.

(** Step 7: the README is written only if it changed. *)
Definition write_if_changed (readme new_readme : string) : M unit :=
  if negb (String.eqb new_readme readme)
  then write_readme new_readme ;; print MsgUpdated
  else print MsgNoChanges.

(** Two runs that differ at most in the credential and in what the network
    answers. *)
Definition same_but_credential (w w' : world) : Prop :=
  env_GH_OWNER w = env_GH_OWNER w' /\
  projects_json w = projects_json w' /\
  readme_md w = readme_md w' /\
  key_order w = key_order w'.

(** ** Sample inputs *)

Module Sample.

Definition nl : string := String Str.newline "".

(** None of the sample inputs holds a float, a list or a dict where its text
    is asked for; the text of such values is left empty. *)
Definition no_repr : json -> string := fun _ => "".

Definition project (name language repo : string) : json :=
  JObj [("name", JStr name); ("language", JStr language); ("repo", JStr repo)].

Definition doc_multiline : string :=
  "<!-- PROJECTS:cpp:START -->" ++ nl ++ "<!-- PROJECTS:cpp:END -->".

Definition doc_cell : string :=
  "| C++ | <!-- PROJECTS:cpp:START -->old<!-- PROJECTS:cpp:END --> |".

Definition doc_empty_region : string :=
  "<!-- PROJECTS:cpp:START --><!-- PROJECTS:cpp:END -->".

(** Sentinels written without the inner spaces. *)
Definition doc_tight : string :=
  "<!--PROJECTS:cpp:START-->OLD<!--PROJECTS:cpp:END-->".

Definition answers (o : url_outcome) : list request -> request -> url_outcome :=
  fun _ _ => o.

Definition a_world (pat : option string) (data : load_outcome)
    (readme : read_outcome) (net : list request -> request -> url_outcome)
  : world :=
  {| env_GH_OWNER := None; env_GH_PAT := pat;
     projects_json := data; readme_md := readme;
     key_order := fun l => l; network := net |}.

Definition doc_python : string :=
  "<!-- PROJECTS:python:START --><!-- PROJECTS:python:END -->".

(** Scenario B of the specification. *)
Definition doc_stale : string :=
  "<!-- PROJECTS:cpp:START -->OLD<!-- PROJECTS:cpp:END -->".

Definition two_same_repo : list json :=
  [ project "Foo" "python" "foo-repo"; project "Foo again" "py" "foo-repo" ].

Definition w_tight : world :=
  a_world None (LoadOk (JList [])) (ReadOk doc_tight) (answers URLErr).

Definition w_stale : world :=
  a_world None (LoadOk (JList [])) (ReadOk doc_stale) (answers URLErr).

Definition w_no_readme : world :=
  a_world None (LoadOk (JList [])) ReadNotFound (answers URLErr).

Definition w_twice : world :=
  a_world (Some "token") (LoadOk (JList two_same_repo)) (ReadOk doc_python)
          (answers (Response 200)).

Definition w_failing : world :=
  a_world (Some "token") (LoadOk (JList two_same_repo)) (ReadOk doc_python)
          (answers (HTTPErr 500)).

Definition w_no_pat : world :=
  a_world None (LoadOk (JList two_same_repo)) (ReadOk doc_python)
          (answers URLErr).


(** A project name with a backslash, as in a Windows path. *)
Definition w_backslash : world :=
  a_world None (LoadOk (JList [project "C:\new" "python" "new"]))
          (ReadOk doc_python) (answers URLErr).

(** The connection is dropped while the response is read: [urlopen] raises
    [http.client.RemoteDisconnected], which is neither an [HTTPError] nor a
    [URLError]. *)
Definition w_dropped : world :=
  a_world (Some "token") (LoadOk (JList [project "Foo" "python" "foo-repo"]))
          (ReadOk doc_python) (answers (OtherErr "RemoteDisconnected")).

(** A README that is there but is not UTF-8: reading it raises
    [UnicodeDecodeError]. *)
Definition w_undecodable : world :=
  a_world None (LoadOk (JList [])) (ReadFailed "UnicodeDecodeError")
          (answers URLErr).

(** Every repository is reported missing, and the connection is dropped
    while the answer to a creation request is read. *)
Definition w_create_dropped : world :=
  a_world (Some "token") (LoadOk (JList two_same_repo)) (ReadOk doc_python)
          (fun _ req => match req with
                        | GET _ _ _ => HTTPErr 404
                        | POST _ _ _ _ => OtherErr "RemoteDisconnected"
                        end).

Definition w_bad_element : world :=
  a_world None (LoadOk (JList [project "Foo" "python" "foo-repo"; JStr "Bar"]))
          (ReadOk doc_python) (answers URLErr).

End Sample.

(** ** Further notions *)


(** The marker keys of [LANG_MAP], each with its display name. *)
Definition marker_keys : list (string * string) :=
  [ ("C", "C"); ("C++", "cpp"); ("Python", "python");
    ("TypeScript", "typescript"); ("Shell", "shell");
    ("Docker", "docker"); ("Git", "git") ].

(** The surroundings with another parsed entry list. *)
Definition with_data (w : world) (data : list json) : world :=
  {| env_GH_OWNER := env_GH_OWNER w; env_GH_PAT := env_GH_PAT w;
     projects_json := LoadOk (JList data); readme_md := readme_md w;
     key_order := key_order w; network := network w |}.

(** The text holds a start sentinel of the key that an end sentinel of the
    key follows. *)
Definition has_pair (key doc : string) : Prop :=
  exists a b c,
    doc = a ++ start_marker key ++ b ++ end_marker key ++ c.

(** The answer to the creation request on which it returns true: a
    response with a success status. *)
Definition creation_succeeds (o : url_outcome) : bool :=
  match o with
  | Response s => is_2xx s
  | _ => false
  end.

Section FurtherSpec.

Variable repr_other : json -> string.

(** The entry list without the objects the loop passes over with a
    warning. *)
Definition drop_skipped (data : list json) : list json :=
  filter (fun item =>
            negb (is_object item)
            || match valid_entry repr_other item with
               | Some _ => true
               | None => false
               end) data.

End FurtherSpec.

Module Sample2.

Definition doc_plain : string := "# Title".

Definition doc_two_pairs : string :=
  "| <!-- PROJECTS:cpp:START -->a<!-- PROJECTS:cpp:END --> | "
  ++ "<!-- PROJECTS:cpp:START -->b<!-- PROJECTS:cpp:END --> |".

Definition w_blank_pat : world :=
  Sample.a_world (Some "   ") (LoadOk (JList Sample.two_same_repo))
                 (ReadOk Sample.doc_python) (Sample.answers (Response 200)).

Definition mixed_entries : list json :=
  [ Sample.project "Foo" "python" "foo-repo";
    Sample.project "Bar" "Ruby" "bar";
    JObj [("name", JStr "Baz")];
    Sample.project "Qux" "c++" "qux" ].

Definition w_mixed : world :=
  Sample.a_world (Some "token") (LoadOk (JList mixed_entries))
                 (ReadOk Sample.doc_python) (Sample.answers (HTTPErr 404)).


End Sample2.

(** * Properties *)

(** ** Strings *)

Module StrFacts.
Import Str.

Lemma app_assoc (a b c : string) : (a ++ b) ++ c = a ++ b ++ c.
Proof. induction a as [|x a IH]; simpl; [reflexivity | now rewrite IH]. Qed.

Lemma app_nil_r (a : string) : a ++ "" = a.
Proof. induction a as [|x a IH]; simpl; [reflexivity | now rewrite IH]. Qed.

Lemma length_app (a b : string) : length (a ++ b) = length a + length b.
Proof. induction a as [|x a IH]; simpl; [reflexivity | now rewrite IH]. Qed.

Lemma count_app (c : ascii) (a b : string) :
  count c (a ++ b) = count c a + count c b.
Proof. induction a as [|x a IH]; simpl; [reflexivity | rewrite IH; lia]. Qed.

Lemma forallb_app (p : ascii -> bool) (a b : string) :
  forallb p (a ++ b) = forallb p a && forallb p b.
Proof.
  induction a as [|x a IH]; simpl; [reflexivity |].
  now rewrite IH, andb_assoc.
Qed.

Lemma strip_prefix_app (p s : string) : strip_prefix p (p ++ s) = Some s.
Proof.
  induction p as [|x p IH]; simpl; [reflexivity |].
  now rewrite Ascii.eqb_refl.
Qed.

Lemma strip_prefix_sound (p s : string) {r : string} :
  strip_prefix p s = Some r -> s = p ++ r.
Proof.
  revert s; induction p as [|x p IH]; simpl; intros s H.
  - now inversion H.
  - destruct s as [|y s]; [discriminate |].
    destruct (Ascii.eqb_spec x y) as [->|]; [|discriminate].
    now rewrite (IH _ H).
Qed.

(** Whether [p] is at the front of a text is decided by the first
    [length p] characters. *)
Lemma strip_prefix_app_l (p a x : string) :
  length p <= length a ->
  strip_prefix p (a ++ x) = option_map (fun r => r ++ x) (strip_prefix p a).
Proof.
  revert a; induction p as [|c p IH]; simpl; intros a Hlen; [reflexivity |].
  destruct a as [|d a]; simpl in *; [lia |].
  destruct (Ascii.eqb c d); [apply IH; lia | reflexivity].
Qed.

Lemma strip_prefix_none_ext (p a x y : string) :
  length p <= length a ->
  strip_prefix p (a ++ x) = None -> strip_prefix p (a ++ y) = None.
Proof.
  intros Hlen. rewrite !strip_prefix_app_l by assumption.
  now destruct (strip_prefix p a).
Qed.

Lemma find_sub_sound (n h : string) {run rest : string} :
  find_sub n h = Some (run, rest) -> h = run ++ n ++ rest.
Proof.
  revert run; induction h as [|c h IH]; intros run; simpl.
  - destruct (strip_prefix n "") as [r|] eqn:E; [|discriminate].
    intros H; inversion H; subst. simpl. now apply strip_prefix_sound.
  - destruct (strip_prefix n (String c h)) as [r|] eqn:E.
    + intros H; inversion H; subst. simpl. now apply strip_prefix_sound.
    + destruct (find_sub n h) as [[run' rest']|] eqn:F; [|discriminate].
      intros H; inversion H; subst. simpl. now rewrite <- (IH _ eq_refl).
Qed.

Lemma find_sub_front (n h r : string) :
  strip_prefix n h = Some r -> find_sub n h = Some ("", r).
Proof. intros H. destruct h; simpl; now rewrite H. Qed.

(** An occurrence further to the right is an occurrence. *)
Lemma find_sub_suffix (n a b : string) :
  find_sub n b <> None -> find_sub n (a ++ b) <> None.
Proof.
  intros H. induction a as [|c a IH]; simpl; [assumption |].
  destruct (strip_prefix n (String c (a ++ b))); [discriminate |].
  destruct (find_sub n (a ++ b)) as [[? ?]|]; [discriminate | assumption].
Qed.

(** The first occurrence is decided by the text up to its end. *)
Lemma find_sub_stable (n h : string) {run rest : string} (x : string) :
  find_sub n h = Some (run, rest) ->
  find_sub n (run ++ n ++ x) = Some (run, x).
Proof.
  revert run; induction h as [|c h IH]; intros run.
  - simpl. destruct (strip_prefix n "") eqn:E; [|discriminate].
    intros H; inversion H; subst. simpl.
    apply find_sub_front, strip_prefix_app.
  - intros H. pose proof (find_sub_sound _ _ H) as Hh.
    simpl in H. destruct (strip_prefix n (String c h)) as [r|] eqn:E.
    + inversion H; subst run rest. simpl.
      apply find_sub_front, strip_prefix_app.
    + destruct (find_sub n h) as [[run' rest']|] eqn:F; [|discriminate].
      inversion H; subst run rest'. clear H.
      simpl. rewrite (IH _ eq_refl).
      replace (String c (run' ++ n ++ x)) with ((String c run' ++ n) ++ x)
        by (simpl; now rewrite app_assoc).
      rewrite (strip_prefix_none_ext n (String c run' ++ n) rest x).
      * reflexivity.
      * rewrite length_app; simpl; lia.
      * rewrite app_assoc. rewrite <- Hh. exact E.
Qed.

End StrFacts.

(** ** The replacement template *)

Module TemplateFacts.
Import Str Template.

(** A template without a backslash stands for itself. *)
Lemma expand_no_backslash (t g0 g1 : string) :
  no_backslash t = true -> expand_template t g0 g1 = Some t.
Proof.
  unfold expand_template, no_backslash.
  induction t as [|c t IH]; simpl; [reflexivity |].
  intros H. apply andb_prop in H as [Hc Ht].
  rewrite Hc. rewrite (IH Ht). reflexivity.
Qed.

End TemplateFacts.

(** ** Marker replacement *)

Section Replace.
Import Str StrFacts.

Lemma no_backslash_start (key : string) :
  no_backslash key = true -> no_backslash (start_marker key) = true.
Proof.
  intros H. unfold no_backslash, start_marker in *.
  rewrite !forallb_app, H. reflexivity.
Qed.

Lemma no_backslash_end (key : string) :
  no_backslash key = true -> no_backslash (end_marker key) = true.
Proof.
  intros H. unfold no_backslash, end_marker in *.
  rewrite !forallb_app, H. reflexivity.
Qed.

Lemma pattern_search_sound (s e t : string) {pre old post : string} :
  pattern_search s e t = Some (pre, old, post) ->
  t = pre ++ s ++ old ++ e ++ post /\
  find_sub e (old ++ e ++ post) = Some (old, post).
Proof.
  revert pre; induction t as [|c t IH]; intros pre; simpl.
  - destruct (strip_prefix s "") as [r|] eqn:E.
    + destruct (find_sub e r) as [[i p]|] eqn:F; [|discriminate].
      intros H; inversion H; subst. simpl.
      pose proof (strip_prefix_sound _ _ E) as E1.
      pose proof (find_sub_sound _ _ F) as F1.
      split; [rewrite F1 in E1; exact E1 | exact (find_sub_stable _ _ _ F)].
    + discriminate.
  - destruct (match strip_prefix s (String c t) with
              | Some rest => find_sub e rest
              | None => None
              end) as [[i p]|] eqn:A.
    + intros H; inversion H; subst. simpl.
      destruct (strip_prefix s (String c t)) as [r|] eqn:E; [|discriminate].
      pose proof (strip_prefix_sound _ _ E) as E1.
      pose proof (find_sub_sound _ _ A) as F1.
      split; [rewrite F1 in E1; exact E1 | exact (find_sub_stable _ _ _ A)].
    + destruct (pattern_search s e t) as [[[pre' old'] post']|] eqn:P;
        [|discriminate].
      intros H; inversion H; subst.
      destruct (IH _ eq_refl) as [Ht Hf]. simpl. now rewrite <- Ht.
Qed.

Lemma pattern_search_front (s e t r i p : string) :
  strip_prefix s t = Some r -> find_sub e r = Some (i, p) ->
  pattern_search s e t = Some ("", i, p).
Proof. intros E F. destruct t; simpl; now rewrite E, F. Qed.

(** The match is decided by the text up to the end of the start sentinel and
    by where the end sentinel first occurs after it. *)
Lemma pattern_search_stable (s e t pre old post x old' post' : string) :
  pattern_search s e t = Some (pre, old, post) ->
  find_sub e x = Some (old', post') ->
  pattern_search s e (pre ++ s ++ x) = Some (pre, old', post').
Proof.
  intros H Hx. revert t H; induction pre as [|c pre IH]; intros t H.
  - simpl. apply pattern_search_front with x;
      [apply strip_prefix_app | exact Hx].
  - destruct (pattern_search_sound _ _ _ H) as [Ht Hf].
    destruct t as [|d t]; [discriminate |].
    simpl in Ht. injection Ht as Hd H1. subst d.
    cbn [pattern_search] in H.
    destruct (match strip_prefix s (String c t) with
              | Some rest => find_sub e rest
              | None => None
              end) as [[i p]|] eqn:A; [discriminate |].
    destruct (pattern_search s e t) as [[[pre' o] q]|] eqn:P; [|discriminate].
    inversion H; subst pre' o q. clear H.
    change (String c pre ++ s ++ x) with (String c (pre ++ s ++ x)).
    cbn [pattern_search]. rewrite (IH _ P).
    assert (Hnone : match strip_prefix s (String c (pre ++ s ++ x)) with
                    | Some rest => find_sub e rest
                    | None => None
                    end = None).
    { assert (Hlen : length s <= length (String c pre ++ s))
        by (rewrite length_app; simpl; lia).
      replace (String c (pre ++ s ++ x)) with ((String c pre ++ s) ++ x)
        by (simpl; now rewrite app_assoc).
      rewrite strip_prefix_app_l by exact Hlen.
      rewrite H1 in A.
      replace (String c (pre ++ s ++ old ++ e ++ post))
        with ((String c pre ++ s) ++ old ++ e ++ post) in A
        by (simpl; now rewrite app_assoc).
      rewrite strip_prefix_app_l in A by exact Hlen.
      destruct (strip_prefix s (String c pre ++ s)) as [r|]; [|reflexivity].
      simpl in A. exfalso.
      apply (find_sub_suffix e r (old ++ e ++ post)); [|exact A].
      rewrite Hf. discriminate. }
    rewrite Hnone. reflexivity.
Qed.

(** What [replace_between_markers] returns when neither the key nor the
    content holds a backslash: the text with the region of the first pair
    exchanged for the content. *)
Lemma replace_found (doc key inner pre old post : string) :
  no_backslash key = true -> no_backslash inner = true ->
  pattern_search (start_marker key) (end_marker key) doc
    = Some (pre, old, post) ->
  replace_between_markers doc key inner
    = Ret (pre ++ (start_marker key ++ inner ++ end_marker key) ++ post).
Proof.
  intros Hk Hi Hs. unfold replace_between_markers. rewrite Hs.
  rewrite TemplateFacts.expand_no_backslash; [reflexivity |].
  unfold no_backslash in *. rewrite !forallb_app.
  fold (no_backslash (start_marker key)). fold (no_backslash (end_marker key)).
  now rewrite no_backslash_start, no_backslash_end, Hi.
Qed.

Lemma replace_not_found (doc key inner : string) :
  pattern_search (start_marker key) (end_marker key) doc = None ->
  replace_between_markers doc key inner = Ret doc.
Proof. intros Hs. unfold replace_between_markers. now rewrite Hs. Qed.

(** Without backslashes in key and content no template error arises. *)
Lemma replace_returns (doc key inner : string) :
  no_backslash key = true -> no_backslash inner = true ->
  exists doc', replace_between_markers doc key inner = Ret doc'.
Proof.
  intros Hk Hi.
  destruct (pattern_search (start_marker key) (end_marker key) doc)
    as [[[pre old] post]|] eqn:Hs.
  - eexists. eapply replace_found; eassumption.
  - exists doc. now apply replace_not_found.
Qed.

End Replace.

(** ** The entry loop *)

Section EntryLoop.
Import Str Py.

Variable repr_other : json -> string.
Variable w : world.


Lemma add_msgs_nil (p : proc) : add_msgs p [] = p.
Proof. destruct p; unfold add_msgs; simpl. now rewrite List.app_nil_r. Qed.

Lemma add_msgs_app (p : proc) (a b : list (stream * message)) :
  add_msgs (add_msgs p a) b = add_msgs p (a ++ b).
Proof. unfold add_msgs; simpl. now rewrite List.app_assoc. Qed.

Lemma get_object (fields : list (string * json)) (k : string) :
  get (JObj fields) k = Ret (field k fields).
Proof. unfold get, field. now destruct (lookup k fields). Qed.

Lemma process_entry_not_object (idx : nat) (item : json) (g : groups)
    (p : proc) :
  is_object item = false ->
  process_entry repr_other w idx item g p = (Raised AttributeError, p).
Proof. destruct item; try discriminate; reflexivity. Qed.

(** The loop body on an object, by cases on what the object is. *)
Lemma process_entry_object (idx : nat) (fields : list (string * json))
    (g : groups) (p : proc) :
  process_entry repr_other w idx (JObj fields) g p =
  match valid_entry repr_other (JObj fields) with
  | None => (Ok g, add_msgs p [(Stderr, skip_message idx fields)])
  | Some e =>
      match hash_key (e_repo e) with
      | Some _ => (Ok (push_entry repr_other w g e), p)
      | None => (Raised TypeError, p)
      end
  end.
Proof.
  unfold process_entry, valid_entry, skip_message.
  rewrite !get_object. unfold bind, lift, ret.
  destruct (truthy (field "name" fields)),
           (truthy (field "language" fields)),
           (truthy (field "repo" fields)); try reflexivity.
  simpl.
  destruct (normalize_language repr_other (field "language" fields))
    as [[display key]|]; [|reflexivity].
  unfold push_entry, badge_of. simpl.
  destruct (hash_key (field "repo" fields)); reflexivity.
Qed.

Lemma well_formed_cons (item : json) (data : list json) :
  well_formed repr_other (item :: data) = true ->
  is_object item = true /\
  (forall e, valid_entry repr_other item = Some e ->
             hashable (e_repo e) = true) /\
  well_formed repr_other data = true.
Proof.
  unfold well_formed. simpl. intros H.
  apply andb_prop in H as [H1 H2]. apply andb_prop in H1 as [Ho Hd].
  destruct (valid_entry repr_other item) as [e|] eqn:E.
  - simpl in H2. apply andb_prop in H2 as [He Hr].
    repeat split; [assumption | | now rewrite Hd, Hr].
    intros e' He'; now inversion He'; subst.
  - repeat split; [assumption | discriminate | now rewrite Hd, H2].
Qed.

(** On well-formed data the loop ends, having taken in the valid entries
    one after the other and printed warnings only. *)
Lemma entry_loop_well_formed (data : list json) :
  well_formed repr_other data = true ->
  forall idx g p, exists msgs,
    entry_loop repr_other w idx data g p
      = (Ok (fold_left (push_entry repr_other w)
                       (valid_entries repr_other data) g),
         add_msgs p msgs).
Proof.
  induction data as [|item data IH]; intros Hwf idx g p.
  - exists []. simpl. unfold ret. now rewrite add_msgs_nil.
  - apply well_formed_cons in Hwf as (Ho & Hh & Hwf).
    destruct item; try discriminate Ho.
    cbn [entry_loop]. unfold bind.
    rewrite process_entry_object.
    cbn [valid_entries].
    destruct (valid_entry repr_other (JObj fields)) as [e|] eqn:E.
    + specialize (Hh e eq_refl). unfold hashable in Hh.
      destruct (hash_key (e_repo e)) eqn:Hk; [|discriminate].
      destruct (IH Hwf (S idx) (push_entry repr_other w g e) p) as [msgs Hm].
      exists msgs. rewrite Hm. reflexivity.
    + destruct (IH Hwf (S idx) g
                   (add_msgs p [(Stderr, skip_message idx fields)]))
        as [msgs Hm].
      eexists. rewrite Hm, add_msgs_app. reflexivity.
Qed.

(** Whatever the data, the loop sends nothing and writes nothing, and it
    never calls [sys.exit]. *)
Lemma entry_loop_frame (data : list json) :
  forall idx g p,
    sent (snd (entry_loop repr_other w idx data g p)) = sent p /\
    written (snd (entry_loop repr_other w idx data g p)) = written p /\
    forall c, fst (entry_loop repr_other w idx data g p) <> Exit c.
Proof.
  induction data as [|item data IH]; intros idx g p.
  - simpl. repeat split; discriminate.
  - cbn [entry_loop]. unfold bind.
    destruct (is_object item) eqn:Ho.
    + destruct item; try discriminate Ho. rewrite process_entry_object.
      destruct (valid_entry repr_other (JObj fields)) as [e|].
      * destruct (hash_key (e_repo e)); [apply IH |].
        simpl. repeat split; discriminate.
      * specialize (IH (S idx) g
                      (add_msgs p [(Stderr, skip_message idx fields)])).
        exact IH.
    + rewrite process_entry_not_object by assumption.
      simpl. repeat split; discriminate.
Qed.

(** An element that is no object stops the loop with an exception. *)
Lemma entry_loop_non_object (data : list json) (x : json) :
  In x data -> is_object x = false ->
  forall idx g p, exists e p',
    entry_loop repr_other w idx data g p = (Raised e, p').
Proof.
  induction data as [|item data IH]; intros Hin Hx idx g p; [contradiction |].
  cbn [entry_loop]. unfold bind.
  destruct (is_object item) eqn:Ho.
  - destruct Hin as [->|Hin]; [congruence |].
    destruct item; try discriminate Ho. rewrite process_entry_object.
    destruct (valid_entry repr_other (JObj fields)) as [e|].
    + destruct (hash_key (e_repo e)); [now apply IH |].
      now exists TypeError, p.
    + now apply IH.
  - rewrite process_entry_not_object by assumption.
    now exists AttributeError, p.
Qed.

(** The loop consults the surroundings for the owner only. *)
Lemma entry_loop_same_owner (w' : world) (data : list json) :
  GH_OWNER w = GH_OWNER w' ->
  forall idx g p,
    entry_loop repr_other w idx data g p
      = entry_loop repr_other w' idx data g p.
Proof.
  intros Hown. induction data as [|item data IH]; intros idx g p;
    [reflexivity |].
  cbn [entry_loop]. unfold bind.
  assert (Hstep : process_entry repr_other w idx item g p
                  = process_entry repr_other w' idx item g p).
  { unfold process_entry. now rewrite Hown. }
  rewrite Hstep.
  destruct (process_entry repr_other w' idx item g p) as [[g'| |] p'];
    [apply IH | reflexivity | reflexivity].
Qed.

End EntryLoop.

(** ** Badge groups *)

Section Groups.
Import Str Py.

Variable repr_other : json -> string.
Variable w : world.

Lemma hkey_eqb_eq (a b : hkey) : hkey_eqb a b = true <-> a = b.
Proof.
  destruct a, b; simpl; split; intros H;
    try discriminate; try reflexivity; try congruence.
  - apply String.eqb_eq in H. congruence.
  - inversion H. apply String.eqb_refl.
  - apply Z.eqb_eq in H. congruence.
  - inversion H. apply Z.eqb_refl.
  - apply andb_prop in H as [H1 H3]. apply andb_prop in H1 as [H1 H2].
    apply Bool.eqb_prop in H1. apply Pos.eqb_eq in H2. apply Z.eqb_eq in H3.
    congruence.
  - inversion H. now rewrite Bool.eqb_reflx, Pos.eqb_refl, Z.eqb_refl.
  - apply Bool.eqb_prop in H. congruence.
  - inversion H. apply Bool.eqb_reflx.
Qed.

Lemma hkey_eqb_refl (a : hkey) : hkey_eqb a a = true.
Proof. now apply hkey_eqb_eq. Qed.

Lemma hkey_eqb_sym (a b : hkey) : hkey_eqb a b = hkey_eqb b a.
Proof.
  destruct (hkey_eqb a b) eqn:E1, (hkey_eqb b a) eqn:E2; try reflexivity.
  - apply hkey_eqb_eq in E1. subst. now rewrite hkey_eqb_refl in E2.
  - apply hkey_eqb_eq in E2. subst. now rewrite hkey_eqb_refl in E1.
Qed.

Lemma dict_get_set_eq {V : Type} (k : string) (v : V) (d : list (string * V)) :
  dict_get k (dict_set k v d) = Some v.
Proof.
  induction d as [|[k' v'] d IH]; simpl.
  - now rewrite String.eqb_refl.
  - destruct (String.eqb k k') eqn:E; simpl.
    + now rewrite String.eqb_refl.
    + now rewrite E.
Qed.

Lemma dict_get_set_neq {V : Type} (k k0 : string) (v : V)
    (d : list (string * V)) :
  String.eqb k k0 = false -> dict_get k (dict_set k0 v d) = dict_get k d.
Proof.
  intros Hne. induction d as [|[k' v'] d IH]; simpl.
  - now rewrite Hne.
  - destruct (String.eqb k0 k') eqn:E; simpl.
    + apply String.eqb_eq in E. subst k'. now rewrite Hne.
    + now rewrite IH.
Qed.

Lemma get_list_set_eq {V : Type} (k : string) (v : list V)
    (d : list (string * list V)) :
  get_list k (dict_set k v d) = v.
Proof. unfold get_list. now rewrite dict_get_set_eq. Qed.

Lemma get_list_set_neq {V : Type} (k k0 : string) (v : list V)
    (d : list (string * list V)) :
  String.eqb k k0 = false -> get_list k (dict_set k0 v d) = get_list k d.
Proof. intros H. unfold get_list. now rewrite dict_get_set_neq. Qed.

(** What taking in one entry does to the badges and the repos seen of each
    key, and to the references collected. *)
Lemma push_entry_effect (g : groups) (e : entry) (h : hkey) :
  aligned g -> hash_key (e_repo e) = Some h ->
  let g' := push_entry repr_other w g e in
  aligned g' /\
  repos_needed g' = (repos_needed g ++ [(GH_OWNER w, e_repo e)])%list /\
  forall k,
    get_list k (badges_by_key g') =
      (if String.eqb k (e_key e) && negb (seen_in (get_list k (seen_by_key g)) e)
       then get_list k (badges_by_key g) ++ [badge_of repr_other w e]
       else get_list k (badges_by_key g))%list /\
    get_list k (seen_by_key g') =
      (if String.eqb k (e_key e) && negb (seen_in (get_list k (seen_by_key g)) e)
       then get_list k (seen_by_key g) ++ [h]
       else get_list k (seen_by_key g))%list.
Proof.
  intros Hal Hh. unfold push_entry, seen_in. rewrite Hh. cbv zeta.
  destruct (dict_get (e_key e) (badges_by_key g)) as [b|] eqn:Hb.
  - (* the key has its structures *)
    destruct (existsb (hkey_eqb h) (get_list (e_key e) (seen_by_key g))) eqn:Hs;
      cbn [badges_by_key seen_by_key repos_needed].
    + split; [exact Hal | split; [reflexivity |]].
      intros k. destruct (String.eqb k (e_key e)) eqn:Ek; simpl; [|now split].
      apply String.eqb_eq in Ek. subst k. rewrite Hs. now split.
    + split; [|split; [reflexivity |]].
      * intros k Hk. cbn [badges_by_key seen_by_key] in *.
        destruct (String.eqb k (e_key e)) eqn:Ek.
        { apply String.eqb_eq in Ek. subst k.
          now rewrite dict_get_set_eq in Hk. }
        { rewrite dict_get_set_neq in Hk by assumption.
          rewrite dict_get_set_neq by assumption. now apply Hal. }
      * intros k. destruct (String.eqb k (e_key e)) eqn:Ek; simpl.
        { apply String.eqb_eq in Ek. subst k. rewrite Hs. simpl.
          now rewrite !get_list_set_eq. }
        { now rewrite !get_list_set_neq by assumption. }
  - (* the key is new *)
    pose proof (Hal _ Hb) as Hsn.
    cbn [badges_by_key seen_by_key repos_needed].
    rewrite !get_list_set_eq. simpl existsb. cbv iota.
    cbn [badges_by_key seen_by_key repos_needed].
    assert (Hgb : get_list (e_key e) (badges_by_key g) = [])
      by (unfold get_list; now rewrite Hb).
    assert (Hgs : get_list (e_key e) (seen_by_key g) = [])
      by (unfold get_list; now rewrite Hsn).
    split; [|split; [reflexivity |]].
    + intros k Hk. cbn [badges_by_key seen_by_key] in *.
      destruct (String.eqb k (e_key e)) eqn:Ek.
      { apply String.eqb_eq in Ek. subst k.
        now rewrite dict_get_set_eq in Hk. }
      { rewrite !dict_get_set_neq in Hk by assumption.
        rewrite !dict_get_set_neq by assumption. now apply Hal. }
    + intros k. destruct (String.eqb k (e_key e)) eqn:Ek; simpl.
      { apply String.eqb_eq in Ek. subst k. rewrite Hgs, Hgb. simpl.
        now rewrite !get_list_set_eq. }
      { now rewrite !get_list_set_neq by assumption. }
Qed.

Lemma filter_filter {A : Type} (f g : A -> bool) (l : list A) :
  filter f (filter g l) = filter (fun x => g x && f x) l.
Proof.
  induction l as [|x l IH]; simpl; [reflexivity |].
  destruct (g x); simpl; [destruct (f x) |]; now rewrite IH.
Qed.

Lemma seen_in_snoc (seen : list hkey) (h : hkey) (e x : entry) :
  hash_key (e_repo e) = Some h ->
  negb (seen_in (seen ++ [h]) x)
  = negb (same_repo (e_repo e) (e_repo x)) && negb (seen_in seen x).
Proof.
  intros Hh. unfold seen_in, same_repo. rewrite Hh.
  destruct (hash_key (e_repo x)) as [hx|]; [|reflexivity].
  rewrite existsb_app. simpl. rewrite orb_false_r, negb_orb.
  now rewrite (hkey_eqb_sym hx h), andb_comm.
Qed.

Lemma seen_in_absorbs (seen : list hkey) (h : hkey) (e x : entry) :
  hash_key (e_repo e) = Some h -> seen_in seen e = true ->
  negb (same_repo (e_repo e) (e_repo x)) && negb (seen_in seen x)
  = negb (seen_in seen x).
Proof.
  intros Hh Hs. unfold seen_in, same_repo in *. rewrite Hh in *.
  destruct (hash_key (e_repo x)) as [hx|]; [|reflexivity].
  destruct (hkey_eqb h hx) eqn:E; [|reflexivity].
  apply hkey_eqb_eq in E. subst hx. now rewrite Hs.
Qed.

(** The loop keeps, for each key, the first entry of each repo. *)
Lemma fold_push_groups (es : list entry) :
  List.forallb (fun e => hashable (e_repo e)) es = true ->
  forall g, aligned g ->
    let g' := fold_left (push_entry repr_other w) es g in
    repos_needed g'
      = (repos_needed g ++ map (fun e => (GH_OWNER w, e_repo e)) es)%list /\
    forall k,
      get_list k (badges_by_key g') =
        (get_list k (badges_by_key g)
         ++ map (badge_of repr_other w)
              (filter (fun e => negb (seen_in (get_list k (seen_by_key g)) e))
                 (first_per_repo
                    (filter (fun e => String.eqb (e_key e) k) es))))%list.
Proof.
  induction es as [|e es IH]; intros Hh g Hal.
  - simpl. split; [|intros k]; now rewrite List.app_nil_r.
  - simpl in Hh. apply andb_prop in Hh as [He Hes].
    unfold hashable in He.
    destruct (hash_key (e_repo e)) as [h|] eqn:Hk; [|discriminate].
    destruct (push_entry_effect g e h Hal Hk) as (Hal' & Hrepos & Hget).
    cbn [fold_left]. cbv zeta.
    destruct (IH Hes _ Hal') as [IHr IHb]. split.
    + rewrite IHr, Hrepos. simpl. now rewrite <- List.app_assoc.
    + intros k. rewrite IHb. destruct (Hget k) as [Hb Hs]. rewrite Hb, Hs.
      cbn [filter]. rewrite (String.eqb_sym (e_key e) k).
      destruct (String.eqb k (e_key e)) eqn:Ek; simpl; [|reflexivity].
      cbn [filter].
      destruct (seen_in (get_list k (seen_by_key g)) e) eqn:Hsn; simpl.
      * rewrite filter_filter. f_equal. f_equal.
        apply filter_ext. intros x. symmetry. now apply seen_in_absorbs with h.
      * rewrite <- List.app_assoc. simpl. f_equal. f_equal. f_equal.
        rewrite filter_filter.
        apply filter_ext. intros x. now apply seen_in_snoc.
Qed.

Lemma aligned_groups0 : aligned groups0.
Proof. intros k _. reflexivity. Qed.

Lemma filter_none {A : Type} (l : list A) : filter (fun _ => false) l = [].
Proof. induction l as [|x l IH]; simpl; [reflexivity | exact IH]. Qed.

Lemma filter_all {A : Type} (l : list A) : filter (fun _ => true) l = l.
Proof. induction l as [|x l IH]; simpl; [reflexivity | now rewrite IH]. Qed.

(** The groups and the references the loop ends with on well-formed data. *)
Lemma entry_loop_groups (data : list json) (idx : nat) (p : proc) :
  well_formed repr_other data = true ->
  exists g msgs,
    entry_loop repr_other w idx data groups0 p = (Ok g, add_msgs p msgs) /\
    repos_needed g
      = map (fun e => (GH_OWNER w, e_repo e)) (valid_entries repr_other data) /\
    forall key,
      get_list key (badges_by_key g) = spec_badge_group repr_other w key data.
Proof.
  intros Hwf.
  destruct (entry_loop_well_formed repr_other w data Hwf idx groups0 p)
    as [msgs Hm].
  exists (fold_left (push_entry repr_other w) (valid_entries repr_other data)
                    groups0), msgs.
  split; [exact Hm |].
  unfold well_formed in Hwf. apply andb_prop in Hwf as [_ Hh].
  destruct (fold_push_groups _ Hh groups0 aligned_groups0) as [Hr Hb].
  split; [exact Hr |].
  intros key. rewrite Hb. simpl. unfold spec_badge_group, entries_for.
  f_equal. unfold seen_in.
  rewrite (filter_ext _ (fun _ => true)); [apply filter_all |].
  intros e. now destruct (hash_key (e_repo e)).
Qed.

(** ** Deduplication by repo *)

Lemma same_repo_trans (a b c : json) :
  same_repo a b = true -> same_repo a c = true -> same_repo b c = true.
Proof.
  unfold same_repo.
  destruct (hash_key a) as [x|], (hash_key b) as [y|], (hash_key c) as [z|];
    try discriminate.
  intros H1 H2. apply hkey_eqb_eq in H1, H2. subst. apply hkey_eqb_refl.
Qed.

Lemma same_repo_sym (a b : json) : same_repo a b = same_repo b a.
Proof.
  unfold same_repo.
  destruct (hash_key a) as [x|], (hash_key b) as [y|]; try reflexivity.
  apply hkey_eqb_sym.
Qed.

Lemma subsequence_filter {A : Type} (f : A -> bool) (l : list A) :
  subsequence (filter f l) l.
Proof.
  induction l as [|x l IH]; simpl; [constructor |].
  destruct (f x); [now apply sub_keep | now apply sub_skip].
Qed.

Lemma subsequence_trans {A : Type} (a b c : list A) :
  subsequence a b -> subsequence b c -> subsequence a c.
Proof.
  intros Hab Hbc. revert a Hab.
  induction Hbc as [|x b c Hbc IH|x b c Hbc IH]; intros a Hab.
  - exact Hab.
  - constructor. now apply IH.
  - inversion Hab; subst.
    + apply sub_skip. now apply IH.
    + apply sub_keep. now apply IH.
Qed.

(** The deduplicated list keeps the order of the entries. *)
Lemma first_per_repo_subsequence (l : list entry) :
  subsequence (first_per_repo l) l.
Proof.
  induction l as [|e l IH]; simpl; [constructor |].
  apply sub_keep.
  eapply subsequence_trans; [apply subsequence_filter | exact IH].
Qed.

(** Of the entries with one repo the deduplicated list keeps exactly one,
    the first. *)
Lemma first_per_repo_first (l : list entry) (r : json) :
  filter (fun x => same_repo r (e_repo x)) (first_per_repo l)
  = match find (fun x => same_repo r (e_repo x)) l with
    | Some first => [first]
    | None => []
    end.
Proof.
  induction l as [|e l IH]; simpl; [reflexivity |].
  rewrite filter_filter.
  destruct (same_repo r (e_repo e)) eqn:E.
  - f_equal. rewrite (filter_ext _ (fun _ => false)).
    + apply filter_none.
    + intros x. destruct (same_repo r (e_repo x)) eqn:Ex;
        [|now rewrite andb_false_r].
      now rewrite (same_repo_trans _ _ _ E Ex).
  - rewrite <- IH. apply filter_ext. intros x.
    destruct (same_repo r (e_repo x)) eqn:Ex; [|now rewrite andb_false_r].
    destruct (same_repo (e_repo e) (e_repo x)) eqn:Eex; [|reflexivity].
    rewrite same_repo_sym in Ex, Eex.
    rewrite same_repo_sym in E.
    now rewrite (same_repo_trans _ _ _ Eex Ex) in E.
Qed.

End Groups.

(** ** Reconciliation *)

Section Reconcile.

Variable w : world.

Lemma existence_checks_app (a b : list request) :
  existence_checks (a ++ b) = (existence_checks a ++ existence_checks b)%list.
Proof. unfold existence_checks. apply flat_map_app. Qed.

(** One turn of the reconciliation loop, whatever the network answers: the
    existence check is sent, and after it the creation request when the
    check reported the repository missing; the turn raises exactly when the
    creation request does, and it writes nothing. *)
Lemma ensure_repo_turn (owner : string) (repo : json) (p : proc) :
  let check := GET owner repo (GH_PAT w) in
  let create := POST repo (GH_PAT w) false "" in
  let r := ensure_repo w owner repo p in
  fst r = match (if reports_missing (network w (sent p) check)
                 then creation_raises
                        (network w (sent p ++ [check])%list create)
                 else None) with
          | Some e => Raised e
          | None => Ok tt
          end /\
  written (snd r) = written p /\
  sent (snd r) = (sent p ++ if reports_missing (network w (sent p) check)
                            then [check; create] else [check])%list /\
  exists msgs, printed (snd r) = (printed p ++ msgs)%list.
Proof.
  unfold ensure_repo, try_except, github_repo_exists, github_create_repo,
    urlopen, bind, ret, raise, print, eprint, emit, reports_missing,
    creation_raises.
  cbn [sent printed written].
  destruct (network w (sent p) (GET owner repo (GH_PAT w))) as [s|c| |c n|n];
    [destruct (is_2xx s) | destruct (c =? 404)%Z | | destruct (c =? 404)%Z |];
    cbn [sent printed written negb fst snd];
    try (repeat split;
         first [ exists []; cbn [printed]; now rewrite List.app_nil_r
               | eexists; cbn [printed]; reflexivity ]);
    (destruct (network w (sent p ++ [GET owner repo (GH_PAT w)])
                (POST repo (GH_PAT w) false "")) as [s'|c'| |c' n'|n'];
     [destruct (is_2xx s') | destruct (c' =? 422)%Z | | destruct (c' =? 422)%Z |];
     cbn [sent printed written fst snd];
     repeat split; try (now rewrite <- List.app_assoc);
     first [ exists []; cbn [printed]; now rewrite List.app_nil_r
           | eexists; cbn [printed]; rewrite <- ?List.app_assoc; reflexivity ]).
Qed.

(** A turn checks its repository once, however it ends. *)
Lemma ensure_repo_checks (owner : string) (repo : json) (p : proc) :
  existence_checks (sent (snd (ensure_repo w owner repo p)))
  = (existence_checks (sent p) ++ [(owner, repo)])%list.
Proof.
  destruct (ensure_repo_turn owner repo p) as (_ & _ & Hs & _).
  rewrite Hs, existence_checks_app.
  destruct (reports_missing _); simpl; reflexivity.
Qed.

(** When the creation requests return, a turn ends normally. *)
Lemma ensure_repo_ok (owner : string) (repo : json) (p : proc) :
  creations_return w ->
  exists p',
    ensure_repo w owner repo p = (Ok tt, p') /\
    written p' = written p /\
    existence_checks (sent p')
      = (existence_checks (sent p) ++ [(owner, repo)])%list.
Proof.
  intros Hq.
  destruct (ensure_repo_turn owner repo p) as (Hf & Hw & _ & _).
  pose proof (ensure_repo_checks owner repo p) as Hc.
  rewrite Hq in Hf.
  destruct (ensure_repo w owner repo p) as [o p']. simpl in *.
  exists p'. repeat split; try assumption.
  f_equal. now destruct (reports_missing _).
Qed.

Lemma ensure_repos_ok (repos : list (string * json)) :
  creations_return w ->
  forall p, exists p',
    ensure_repos w repos p = (Ok tt, p') /\
    written p' = written p /\
    existence_checks (sent p') = (existence_checks (sent p) ++ repos)%list.
Proof.
  intros Hq. induction repos as [|[owner repo] repos IH]; intros p.
  - exists p. simpl. now rewrite List.app_nil_r.
  - cbn [ensure_repos]. unfold bind.
    destruct (ensure_repo_ok owner repo p Hq) as (p1 & H1 & W1 & C1).
    rewrite H1. destruct (IH p1) as (p2 & H2 & W2 & C2).
    exists p2. split; [exact H2 |]. split; [congruence |].
    rewrite C2, C1, <- List.app_assoc. reflexivity.
Qed.

(** The loop, whatever the network answers: it never exits and writes
    nothing, it only adds to what is printed, and the repositories it has
    checked are the first ones of its list, all of them when it ends
    normally. *)
Lemma ensure_repos_frame (repos : list (string * json)) :
  forall p,
    let r := ensure_repos w repos p in
    (forall c, fst r <> Exit c) /\
    written (snd r) = written p /\
    (exists msgs, printed (snd r) = (printed p ++ msgs)%list) /\
    exists n,
      existence_checks (sent (snd r))
      = (existence_checks (sent p) ++ firstn n repos)%list /\
      (fst r = Ok tt -> firstn n repos = repos).
Proof.
  induction repos as [|[owner repo] repos IH]; intros p.
  - simpl. split; [discriminate |]. split; [reflexivity |].
    split; [exists []; now rewrite List.app_nil_r |].
    exists 0. simpl. now rewrite List.app_nil_r.
  - cbn [ensure_repos]. unfold bind.
    destruct (ensure_repo_turn owner repo p) as (Hf & Hw & _ & (m1 & Hm1)).
    pose proof (ensure_repo_checks owner repo p) as Hc.
    destruct (ensure_repo w owner repo p) as [[[]|c|e] p1]; simpl in *.
    + destruct (IH p1) as (He & Hw2 & (m2 & Hm2) & (n & Hn & Hall)).
      split; [exact He |]. split; [congruence |].
      split; [exists (m1 ++ m2)%list; now rewrite Hm2, Hm1, List.app_assoc |].
      exists (S n). rewrite Hn, Hc, <- List.app_assoc. simpl.
      split; [reflexivity |]. intros H. now rewrite (Hall H).
    + destruct (if reports_missing _ then _ else _); discriminate.
    + split; [discriminate |]. split; [exact Hw |].
      split; [now exists m1 |].
      exists 1. simpl. split; [exact Hc | discriminate].
Qed.

(** The reconciliation step never exits, writes nothing and only adds to
    what is printed. *)
Lemma reconcile_frame (repos : list (string * json)) (p : proc) :
  (forall c, fst (reconcile w repos p) <> Exit c) /\
  written (snd (reconcile w repos p)) = written p /\
  exists msgs, printed (snd (reconcile w repos p)) = (printed p ++ msgs)%list.
Proof.
  unfold reconcile. destruct repos as [|r repos].
  - split; [discriminate |]. split; [reflexivity |].
    exists []. simpl. now rewrite List.app_nil_r.
  - destruct (String.eqb (GH_PAT w) "").
    + split; [discriminate |]. split; [reflexivity |]. now eexists.
    + destruct (ensure_repos_frame (r :: repos) p) as (He & Hw & Hm & _).
      now repeat split.
Qed.

(** When the creation requests return, the reconciliation step ends
    normally. *)
Lemma reconcile_ok (repos : list (string * json)) (p : proc) :
  creations_return w ->
  exists p', reconcile w repos p = (Ok tt, p') /\ written p' = written p.
Proof.
  intros Hq. unfold reconcile. destruct repos as [|r repos]; [now exists p |].
  destruct (String.eqb (GH_PAT w) "").
  - eexists. split; reflexivity.
  - destruct (ensure_repos_ok (r :: repos) Hq p) as (p' & H & W & _).
    now exists p'.
Qed.

Lemma reconcile_without_credential (repos : list (string * json)) (p : proc) :
  GH_PAT w = "" ->
  reconcile w repos p
  = (Ok tt, match repos with
            | [] => p
            | _ => add_msgs p [(Stderr, MsgNoPAT)]
            end).
Proof.
  intros H. unfold reconcile. rewrite H. now destruct repos.
Qed.


End Reconcile.

(** ** Injection of the badges *)

Section Inject.
Import Str StrFacts.

(** The injection loop touches nothing of the process. *)
Lemma inject_pure (g : groups) (keys : list string) :
  forall text p, inject g keys text p = (fst (inject g keys text proc0), p).
Proof.
  induction keys as [|key keys IH]; intros text p; [reflexivity |].
  cbn [inject]. unfold bind, inject_key.
  destruct (replace_between_markers text key _) as [r|e]; simpl.
  - rewrite (IH r p), (IH r proc0). reflexivity.
  - reflexivity.
Qed.

Lemma no_backslash_app (a b : string) :
  no_backslash (a ++ b) = no_backslash a && no_backslash b.
Proof. apply forallb_app. Qed.

Lemma no_backslash_concat (sep : string) (l : list string) :
  no_backslash sep = true ->
  List.forallb no_backslash l = true ->
  no_backslash (String.concat sep l) = true.
Proof.
  intros Hsep. induction l as [|x l IH]; simpl; [reflexivity |].
  intros H. apply andb_prop in H as [Hx Hl].
  destruct l as [|y l]; [exact Hx |].
  rewrite !no_backslash_app, Hx, Hsep. simpl. now apply IH.
Qed.

(** With keys and badges free of backslashes the injection loop ends
    normally. *)
Lemma inject_ok (g : groups) (keys : list string) :
  List.forallb no_backslash keys = true ->
  (forall k, List.forallb no_backslash (get_list k (badges_by_key g)) = true) ->
  forall text p, exists r, inject g keys text p = (Ok r, p).
Proof.
  intros Hkeys Hb. induction keys as [|key keys IH]; intros text p.
  - now exists text.
  - simpl in Hkeys. apply andb_prop in Hkeys as [Hk Hks].
    cbn [inject]. unfold bind, inject_key.
    set (inner := match get_list key (badges_by_key g) with
                  | [] => ""
                  | _ :: _ => String.concat " " (get_list key (badges_by_key g))
                  end).
    assert (Hi : no_backslash inner = true).
    { subst inner. specialize (Hb key).
      destruct (get_list key (badges_by_key g)); [reflexivity |].
      now apply no_backslash_concat. }
    destruct (replace_returns text key inner Hk Hi) as (r & Hr).
    rewrite Hr. simpl. now apply IH.
Qed.

End Inject.

(** ** The keys the scanner finds *)

Section ScannerFacts.
Import Str StrFacts Scanner.

Lemma key_char_not_backslash (c : ascii) :
  is_key_char c = true -> negb (Ascii.eqb c backslash) = true.
Proof.
  destruct c as [[] [] [] [] [] [] [] []]; vm_compute; congruence.
Qed.

Lemma forallb_impl (p q : ascii -> bool) (s : string) :
  (forall c, p c = true -> q c = true) ->
  forallb p s = true -> forallb q s = true.
Proof.
  intros Hpq. induction s as [|c s IH]; simpl; [reflexivity |].
  intros H. apply andb_prop in H as [Hc Hs].
  now rewrite (Hpq _ Hc), IH.
Qed.

Lemma take_key_chars (s : string) :
  forallb is_key_char (fst (take_key s)) = true.
Proof.
  induction s as [|c s IH]; simpl; [reflexivity |].
  destruct (is_key_char c) eqn:E; [|reflexivity].
  destruct (take_key s) as [k rest]. simpl in *. now rewrite E, IH.
Qed.

Lemma match_start_key (text key rest : string) :
  match_start text = Some (key, rest) -> forallb is_key_char key = true.
Proof.
  unfold match_start, and_then.
  destruct (strip_prefix "<!--" text) as [r1|]; [|discriminate].
  destruct (strip_prefix "PROJECTS:" (skip_spaces r1)) as [r2|];
    [|discriminate].
  pose proof (take_key_chars r2) as Hk.
  destruct (take_key r2) as [k r3]. simpl in Hk.
  destruct (String.eqb k ""); [discriminate |].
  destruct (strip_prefix ":START" r3) as [r4|]; [|discriminate].
  destruct (strip_prefix "-->" (skip_spaces r4)) as [r5|]; [|discriminate].
  intros H. inversion H. now subst.
Qed.

Lemma match_pair_key (text key rest : string) :
  match_pair text = Some (key, rest) -> forallb is_key_char key = true.
Proof.
  unfold match_pair, and_then.
  destruct (match_start text) as [[k r]|] eqn:E; [|discriminate].
  destruct (find_end k r); [|discriminate].
  intros H. inversion H. subst. now apply match_start_key in E.
Qed.

Lemma findall_keys_chars (text : string) :
  forall skip key,
    In key (findall_keys skip text) -> forallb is_key_char key = true.
Proof.
  induction text as [|c text IH]; intros skip key; simpl; [contradiction |].
  destruct skip as [|skip]; [|apply IH].
  destruct (match_pair (String c text)) as [[k rest]|] eqn:E; [|apply IH].
  intros [<-|Hin]; [now apply match_pair_key in E | now apply IH in Hin].
Qed.

Lemma set_of_in (l : list string) (k : string) : In k (set_of l) -> In k l.
Proof.
  induction l as [|x l IH]; simpl; [trivial |].
  intros [->|H]; [now left |].
  apply filter_In in H as [H _]. right. now apply IH.
Qed.

(** A key the scanner finds holds no backslash. *)
Lemma collected_key_plain (text key : string) :
  In key (collect_readme_marker_keys text) -> no_backslash key = true.
Proof.
  intros H. apply set_of_in, findall_keys_chars in H.
  revert H. apply forallb_impl. exact key_char_not_backslash.
Qed.

End ScannerFacts.

(** ** Badges without backslashes *)

Section BadgeFacts.
Import Str StrFacts Py.

Variable repr_other : json -> string.
Variable w : world.

Lemma quote_char_plain (c : ascii) : no_backslash (quote_char c) = true.
Proof. destruct c as [[] [] [] [] [] [] [] []]; vm_compute; reflexivity. Qed.

Lemma quote_plain (s : string) : no_backslash (quote s) = true.
Proof.
  induction s as [|c s IH]; simpl; [reflexivity |].
  now rewrite no_backslash_app, quote_char_plain, IH.
Qed.

Lemma badge_plain (name repo : json) (owner : string) :
  no_backslash (py_str repr_other name) = true ->
  no_backslash owner = true ->
  no_backslash (py_str repr_other repo) = true ->
  no_backslash (build_badge_md repr_other name owner repo) = true.
Proof.
  intros Hn Ho Hr. unfold build_badge_md.
  repeat rewrite no_backslash_app.
  rewrite Hn, Ho, Hr, quote_plain. reflexivity.
Qed.

Lemma first_per_repo_in (l : list entry) (e : entry) :
  In e (first_per_repo l) -> In e l.
Proof.
  induction l as [|x l IH]; simpl; [trivial |].
  intros [->|H]; [now left |].
  apply filter_In in H as [H _]. right. now apply IH.
Qed.

Lemma spec_group_plain (data : list json) (key : string) :
  plain repr_other w data = true ->
  List.forallb no_backslash (spec_badge_group repr_other w key data) = true.
Proof.
  unfold plain. intros H. apply andb_prop in H as [Ho He].
  apply forallb_forall. intros b Hb. unfold spec_badge_group in Hb.
  apply in_map_iff in Hb as (e & <- & Hin).
  unfold entries_for in Hin.
  apply first_per_repo_in, filter_In in Hin as [Hin _].
  rewrite forallb_forall in He. specialize (He e Hin).
  apply andb_prop in He as [Hn Hr].
  now apply badge_plain.
Qed.

End BadgeFacts.

(** ** The run as a whole *)

Section Run.
Import Str Py.

Variable repr_other : json -> string.
Variable w : world.

Lemma run_missing_projects :
  projects_json w = LoadNotFound ->
  run repr_other w = (Exit 1, add_msgs proc0 [(Stderr, MsgProjectsNotFound)]).
Proof. intros H. unfold run, main. now rewrite H. Qed.

Lemma run_invalid_projects :
  projects_json w = LoadInvalid ->
  run repr_other w = (Exit 1, add_msgs proc0 [(Stderr, MsgInvalidJSON)]).
Proof. intros H. unfold run, main. now rewrite H. Qed.

Lemma run_not_a_list (data : json) :
  projects_json w = LoadOk data ->
  (forall items, data <> JList items) ->
  run repr_other w = (Exit 1, add_msgs proc0 [(Stderr, MsgNotAList)]).
Proof.
  intros H Hn. unfold run, main. rewrite H.
  destruct data; try reflexivity. now destruct (Hn xs).
Qed.

Lemma run_missing_readme (items : list json) :
  projects_json w = LoadOk (JList items) ->
  readme_md w = ReadNotFound ->
  run repr_other w = (Exit 1, add_msgs proc0 [(Stderr, MsgReadmeNotFound)]).
Proof. intros H1 H2. unfold run, main. now rewrite H1, H2. Qed.

Lemma run_load_failed (name : string) :
  projects_json w = LoadFailed name ->
  run repr_other w = (Raised (OtherError name), proc0).
Proof. intros H. unfold run, main. now rewrite H. Qed.

Lemma run_read_failed (items : list json) (name : string) :
  projects_json w = LoadOk (JList items) ->
  readme_md w = ReadFailed name ->
  run repr_other w = (Raised (OtherError name), proc0).
Proof. intros H1 H2. unfold run, main. now rewrite H1, H2. Qed.

(** The run once both files are read. *)
Lemma run_after_read (items : list json) (text : string) :
  projects_json w = LoadOk (JList items) ->
  readme_md w = ReadOk text ->
  run repr_other w =
  (g <- entry_loop repr_other w 1 items groups0 ;;
   reconcile w (repos_needed g) ;;
   new_readme <- inject g (key_order w
                             (Scanner.collect_readme_marker_keys text)) text ;;
   write_if_changed text new_readme) (after_scan text).
Proof.
  intros H1 H2. unfold run, main, after_scan, write_if_changed.
  rewrite H1, H2. unfold bind, ret.
  destruct (Scanner.collect_readme_marker_keys text); reflexivity.
Qed.

Lemma write_if_changed_ok (text new_readme : string) (p : proc) :
  fst (write_if_changed text new_readme p) = Ok tt /\
  sent (snd (write_if_changed text new_readme p)) = sent p /\
  written (snd (write_if_changed text new_readme p))
  = if String.eqb new_readme text then written p else Some new_readme.
Proof.
  unfold write_if_changed.
  destruct (String.eqb new_readme text); simpl; repeat split.
Qed.

(** The run once both files are read, by the outcome of each stage. *)
Lemma run_stages (items : list json) (text : string) :
  projects_json w = LoadOk (JList items) ->
  readme_md w = ReadOk text ->
  run repr_other w =
  match entry_loop repr_other w 1 items groups0 (after_scan text) with
  | (Ok g, p2) =>
      match reconcile w (repos_needed g) p2 with
      | (Ok _, p3) =>
          match fst (inject g (key_order w
                                 (Scanner.collect_readme_marker_keys text))
                            text proc0) with
          | Ok new_readme => write_if_changed text new_readme p3
          | Exit c => (Exit c, p3)
          | Raised e => (Raised e, p3)
          end
      | (Exit c, p3) => (Exit c, p3)
      | (Raised e, p3) => (Raised e, p3)
      end
  | (Exit c, p2) => (Exit c, p2)
  | (Raised e, p2) => (Raised e, p2)
  end.
Proof.
  intros Hp Hr. rewrite (run_after_read _ _ Hp Hr). unfold bind.
  destruct (entry_loop repr_other w 1 items groups0 (after_scan text))
    as [[g| |] p2]; try reflexivity.
  destruct (reconcile w (repos_needed g) p2) as [[u| |] p3]; try reflexivity.
  rewrite inject_pure.
  now destruct (fst (inject g _ text proc0)).
Qed.

(** A regular run that reads both files ends normally. *)
Lemma run_regular (items : list json) (text : string) :
  projects_json w = LoadOk (JList items) ->
  readme_md w = ReadOk text ->
  regular_input repr_other w ->
  fst (run repr_other w) = Ok tt.
Proof.
  intros H1 H2 (Hord & Hq & Hreg). rewrite H1, H2 in Hreg.
  destruct Hreg as [Hwf Hpl].
  rewrite (run_after_read _ _ H1 H2). unfold bind.
  destruct (entry_loop_groups repr_other w items 1 (after_scan text) Hwf)
    as (g & msgs & Hloop & _ & Hgroups).
  rewrite Hloop.
  destruct (reconcile_ok w (repos_needed g) (add_msgs (after_scan text) msgs)
              Hq)
    as (p3 & Hrec & _).
  rewrite Hrec.
  destruct (inject_ok g
              (key_order w (Scanner.collect_readme_marker_keys text)))
    with (text := text) (p := p3) as [r Hr].
  - apply forallb_forall. intros k Hk.
    apply Hord in Hk. now apply collected_key_plain in Hk.
  - intros k. rewrite Hgroups. now apply spec_group_plain.
  - rewrite Hr. apply write_if_changed_ok.
Qed.

End Run.

(** ** The stages of a run *)

Section RunStages.
Import Str StrFacts Py.

Variable repr_other : json -> string.
Variable w : world.

Lemma sent_after_scan (text : string) : sent (after_scan text) = [].
Proof.
  unfold after_scan. now destruct (Scanner.collect_readme_marker_keys text).
Qed.

Lemma written_after_scan (text : string) : written (after_scan text) = None.
Proof.
  unfold after_scan. now destruct (Scanner.collect_readme_marker_keys text).
Qed.


(** Keys without a pair in the document leave it as it is. *)
Lemma inject_without_pairs (g : groups) (keys : list string) (text : string)
    (p : proc) :
  (forall k, In k keys -> ~ has_pair k text) ->
  inject g keys text p = (Ok text, p).
Proof.
  induction keys as [|key keys IH]; intros H; [reflexivity |].
  cbn [inject]. unfold bind, inject_key.
  assert (Hr : forall inner,
             replace_between_markers text key inner = Ret text).
  { intros inner. apply replace_not_found.
    destruct (pattern_search (start_marker key) (end_marker key) text)
      as [[[pre old] post]|] eqn:Hs; [|reflexivity].
    exfalso. apply (H key (or_introl eq_refl)).
    destruct (pattern_search_sound _ _ _ Hs) as [Hdoc _].
    now exists pre, old, post. }
  rewrite Hr. simpl. apply IH. intros k Hk. apply H. now right.
Qed.

(** On data that is not well-formed the entry loop raises. *)
Lemma entry_loop_ill_formed (data : list json) :
  well_formed repr_other data = false ->
  forall idx g p, exists e p',
    entry_loop repr_other w idx data g p = (Raised e, p').
Proof.
  induction data as [|item data IH]; intros Hwf idx g p; [discriminate |].
  cbn [entry_loop]. unfold bind.
  destruct (is_object item) eqn:Ho.
  - destruct item; try discriminate Ho. rewrite process_entry_object.
    unfold well_formed in Hwf, IH. cbn [List.forallb valid_entries] in Hwf.
    rewrite Ho in Hwf. cbn [andb] in Hwf.
    destruct (valid_entry repr_other (JObj fields)) as [e|] eqn:E.
    + cbn [List.forallb] in Hwf. unfold hashable in Hwf.
      destruct (hash_key (e_repo e)) eqn:Hk.
      * cbn [andb] in Hwf. now apply IH.
      * now exists TypeError, p.
    + now apply IH.
  - rewrite process_entry_not_object by assumption.
    now exists AttributeError, p.
Qed.



Lemma write_if_changed_cases (text new_readme : string) (p : proc) :
  write_if_changed text new_readme p =
  if String.eqb new_readme text
  then (Ok tt, add_msgs p [(Stdout, MsgNoChanges)])
  else (Ok tt, {| printed := (printed p ++ [(Stdout, MsgUpdated)])%list;
                  sent := sent p; written := Some new_readme |}).
Proof.
  unfold write_if_changed. now destruct (String.eqb new_readme text).
Qed.

(** The run on each of the four conditions on which the script exits. *)
Lemma run_fatal :
  fatal_condition w = true ->
  exists m, run repr_other w = (Exit 1, add_msgs proc0 [(Stderr, m)]) /\
            m <> MsgNoPAT.
Proof.
  unfold fatal_condition.
  destruct (projects_json w) as [data| | |name] eqn:Hp.
  - destruct data;
      try (intros _; eexists; split;
           [apply (run_not_a_list repr_other w _ Hp) |]; discriminate).
    destruct (readme_md w) eqn:Hr; try discriminate.
    intros _. eexists. split; [now apply run_missing_readme with xs |].
    discriminate.
  - intros _. eexists. split; [now apply run_missing_projects |]. discriminate.
  - intros _. eexists. split; [now apply run_invalid_projects |]. discriminate.
  - discriminate.
Qed.

(** The run when a file cannot be read. *)
Lemma run_unreadable :
  unreadable w = true ->
  exists name, run repr_other w = (Raised (OtherError name), proc0).
Proof.
  unfold unreadable.
  destruct (projects_json w) as [data| | |name] eqn:Hp; try discriminate.
  - destruct data; try discriminate.
    destruct (readme_md w) as [| |name] eqn:Hr; try discriminate.
    intros _. exists name. now apply run_read_failed with xs.
  - intros _. exists name. now apply run_load_failed.
Qed.

Lemma run_not_fatal :
  fatal_condition w = false -> unreadable w = false ->
  exists items text,
    projects_json w = LoadOk (JList items) /\ readme_md w = ReadOk text.
Proof.
  unfold fatal_condition, unreadable.
  destruct (projects_json w) as [data| | |name]; try discriminate.
  destruct data; try discriminate.
  destruct (readme_md w); try discriminate.
  intros _ _. now do 2 eexists.
Qed.

(** The process after the loop and after the reconciliation has written
    nothing; after the loop it has sent nothing; neither stage exits. *)
Lemma stages_write_nothing (items : list json) (text : string) :
  let r := entry_loop repr_other w 1 items groups0 (after_scan text) in
  sent (snd r) = [] /\ written (snd r) = None /\
  (forall c, fst r <> Exit c) /\
  forall repos,
    written (snd (reconcile w repos (snd r))) = None /\
    forall c, fst (reconcile w repos (snd r)) <> Exit c.
Proof.
  intros r.
  destruct (entry_loop_frame repr_other w items 1 groups0 (after_scan text))
    as (Hs & Hw & He).
  fold r in Hs, Hw, He.
  rewrite sent_after_scan in Hs. rewrite written_after_scan in Hw.
  repeat split; try assumption.
  - destruct (reconcile_frame w repos (snd r)) as (_ & W3 & _). congruence.
  - apply (reconcile_frame w repos (snd r)).
Qed.


End RunStages.

(** ** Line breaks and repetition of the replace operation *)

Section ReplaceClaims.
Import Str StrFacts.

(** C4 (amended).  When neither the key nor the content holds a backslash,
    [replace_between_markers] returns a document, and its line count is that
    of the input less the line breaks of the region it replaced plus the line
    breaks of the content; a document without a pair for the key comes back
    as it is.  So the line count is kept whenever the replaced region and the
    content hold equally many line breaks, in particular none. *)
Theorem replace_line_count (doc key inner : string) :
  no_backslash key = true -> no_backslash inner = true ->
  exists doc',
    replace_between_markers doc key inner = Ret doc' /\
    match pattern_search (start_marker key) (end_marker key) doc with
    | None => doc' = doc
    | Some (_, old, _) =>
        line_count doc' + count newline old
          = line_count doc + count newline inner /\
        (count newline old = count newline inner ->
         line_count doc' = line_count doc)
    end.
Proof.
  intros Hk Hi.
  destruct (pattern_search (start_marker key) (end_marker key) doc)
    as [[[pre old] post]|] eqn:Hs.
  - exists (pre ++ (start_marker key ++ inner ++ end_marker key) ++ post).
    split; [now apply replace_found with old |].
    destruct (pattern_search_sound _ _ _ Hs) as [Hdoc _].
    assert (Heq : line_count
                    (pre ++ (start_marker key ++ inner ++ end_marker key) ++ post)
                  + count newline old
                  = line_count doc + count newline inner).
    { rewrite Hdoc. unfold line_count. rewrite !count_app. lia. }
    split; [exact Heq | lia].
  - exists doc. split; [now apply replace_not_found | reflexivity].
Qed.

(** C5 (amended).  When neither the key nor the content holds a backslash
    and the end sentinel occurs in the content followed by the end sentinel
    nowhere before the closing one, replacing a second time with the same key
    and content returns the result of the first replacement. *)
Theorem replace_idempotent (doc key inner : string) :
  no_backslash key = true -> no_backslash inner = true ->
  find_sub (end_marker key) (inner ++ end_marker key) = Some (inner, "") ->
  exists doc',
    replace_between_markers doc key inner = Ret doc' /\
    replace_between_markers doc' key inner = Ret doc'.
Proof.
  intros Hk Hi Hend.
  destruct (pattern_search (start_marker key) (end_marker key) doc)
    as [[[pre old] post]|] eqn:Hs.
  - exists (pre ++ (start_marker key ++ inner ++ end_marker key) ++ post).
    split; [now apply replace_found with old |].
    apply replace_found with inner; try assumption.
    rewrite !app_assoc.
    apply pattern_search_stable with (t := doc) (old := old) (post := post).
    + exact Hs.
    + exact (find_sub_stable _ _ post Hend).
  - exists doc. split; now apply replace_not_found.
Qed.

End ReplaceClaims.

(** C4 as stated fails: a region that spans a line break loses it. *)
Lemma replace_line_count_counterexample :
  exists doc',
    replace_between_markers Sample.doc_multiline "cpp" "" = Ret doc' /\
    Str.line_count Sample.doc_multiline = 2 /\ Str.line_count doc' = 1.
Proof.
  eexists. split; [vm_compute; reflexivity | split; reflexivity].
Qed.

(** An instance: a table cell whose region holds a line break. *)
Lemma replace_line_count_witness :
  Str.no_backslash "cpp" = true /\ Str.no_backslash "[![a](b)](c)" = true /\
  exists doc',
    replace_between_markers Sample.doc_cell "cpp" "[![a](b)](c)" = Ret doc' /\
    match pattern_search (start_marker "cpp") (end_marker "cpp") Sample.doc_cell
    with
    | None => doc' = Sample.doc_cell
    | Some (_, old, _) =>
        Str.line_count doc' + Str.count Str.newline old
          = Str.line_count Sample.doc_cell
            + Str.count Str.newline "[![a](b)](c)" /\
        (Str.count Str.newline old = Str.count Str.newline "[![a](b)](c)" ->
         Str.line_count doc' = Str.line_count Sample.doc_cell)
    end.
Proof.
  split; [reflexivity | split; [reflexivity |]].
  apply replace_line_count; reflexivity.
Defined.

(** C5 as stated fails: content that brings an end sentinel of its own is
    cut at that sentinel by the second replacement. *)
Lemma replace_idempotent_counterexample :
  exists once twice,
    replace_between_markers Sample.doc_empty_region "cpp" (end_marker "cpp")
      = Ret once /\
    replace_between_markers once "cpp" (end_marker "cpp") = Ret twice /\
    once <> twice.
Proof.
  do 2 eexists. split; [vm_compute; reflexivity |].
  split; [vm_compute; reflexivity | discriminate].
Qed.

(** An instance: a table cell and a badge. *)
Lemma replace_idempotent_witness :
  Str.no_backslash "cpp" = true /\ Str.no_backslash "[![a](b)](c)" = true /\
  Str.find_sub (end_marker "cpp") ("[![a](b)](c)" ++ end_marker "cpp")
    = Some ("[![a](b)](c)", "") /\
  exists doc',
    replace_between_markers Sample.doc_cell "cpp" "[![a](b)](c)" = Ret doc' /\
    replace_between_markers doc' "cpp" "[![a](b)](c)" = Ret doc'.
Proof.
  split; [reflexivity | split; [reflexivity | split; [reflexivity |]]].
  apply replace_idempotent; reflexivity.
Defined.

(** ** The orchestrator and the marker regions *)

(** C1 (the code departs from it).  The scanner finds the key of a pair of
    sentinels written without the inner spaces, but the replacement step
    looks for the sentinels with exactly one space: the region keeps its old
    text and nothing is written, whereas the same region between sentinels
    with the spaces is cleared.  And the badges reach [Pattern.sub] as a
    replacement template: of a project name with a backslash the region
    receives the expansion, not the badge. *)
Theorem tight_sentinels_not_rewritten :
  Scanner.collect_readme_marker_keys Sample.doc_tight = ["cpp"] /\
  run Sample.no_repr Sample.w_tight
  = (Ok tt, {| printed := [(Stdout, MsgNoChanges)];
               sent := []; written := None |}) /\
  run Sample.no_repr Sample.w_stale
  = (Ok tt, {| printed := [(Stdout, MsgUpdated)]; sent := [];
               written := Some Sample.doc_empty_region |}) /\
  exists new_readme,
    written (snd (run Sample.no_repr Sample.w_backslash)) = Some new_readme /\
    new_readme
    <> start_marker "python"
       ++ build_badge_md Sample.no_repr (JStr "C:\new") "Thhundder" (JStr "new")
       ++ end_marker "python".
Proof.
  split; [reflexivity | split; [reflexivity | split; [reflexivity |]]].
  eexists. split; [vm_compute; reflexivity | vm_compute; discriminate].
Qed.

(** ** Exit status *)

Section ExitStatus.

Variable repr_other : json -> string.
Variable w : world.

(** C2 (amended).  On a regular input, one whose list elements are
    objects, whose valid entries have hashable repos, whose names, repos and
    owner hold no backslash and whose creation requests return, the process
    ends with status 1 in the four cases in which the script calls
    [sys.exit(1)], the entry list absent, not valid JSON, not a list, or the
    README absent, and when one of the two files is there but cannot be read
    or decoded, by an exception that nothing catches.  In every other case
    it ends with status 0, whatever the entries, the markers, the credential
    and the answers to the existence checks are, and whatever status or
    [URLError] the creation requests meet.  The texts of the embedding are
    over the code points below 256, which UTF-8 encodes, and its prints and
    its write succeed. *)
Theorem exit_status_by_condition :
  regular_input repr_other w ->
  exit_status (fst (run repr_other w))
  = if fatal_condition w || unreadable w then 1%Z else 0%Z.
Proof.
  intros Hreg.
  destruct (fatal_condition w) eqn:Hf.
  { destruct (run_fatal repr_other w Hf) as (m & Hm & _). now rewrite Hm. }
  destruct (unreadable w) eqn:Hu.
  { destruct (run_unreadable repr_other w Hu) as (n & Hn). now rewrite Hn. }
  destruct (run_not_fatal w Hf Hu) as (items & text & Hp & Hr).
  now rewrite (run_regular repr_other w _ _ Hp Hr Hreg).
Qed.

End ExitStatus.

(** C2 as stated fails: the entry list is read and is a list, the README is
    absent, and the process ends with status 1.  So it does when the README
    is there but is not UTF-8, and when the connection is dropped while the
    answer to a creation request is read: the exception ends the run after
    the first reference, with nothing written. *)
Lemma exit_status_counterexample :
  (projects_json Sample.w_no_readme = LoadOk (JList []) /\
   readme_md Sample.w_no_readme = ReadNotFound /\
   exit_status (fst (run Sample.no_repr Sample.w_no_readme)) = 1%Z) /\
  (projects_json Sample.w_undecodable = LoadOk (JList []) /\
   readme_md Sample.w_undecodable = ReadFailed "UnicodeDecodeError" /\
   exit_status (fst (run Sample.no_repr Sample.w_undecodable)) = 1%Z) /\
  run Sample.no_repr Sample.w_create_dropped
  = (Raised (OtherError "RemoteDisconnected"),
     {| printed := [];
        sent := [GET "Thhundder" (JStr "foo-repo") "token";
                 POST (JStr "foo-repo") "token" false ""];
        written := None |}) /\
  exit_status (fst (run Sample.no_repr Sample.w_create_dropped)) = 1%Z.
Proof. repeat split; vm_compute; reflexivity. Qed.

(** An instance: a run in which every existence check fails ends with
    status 0. *)
Lemma exit_status_witness :
  regular_input Sample.no_repr Sample.w_failing /\
  exit_status (fst (run Sample.no_repr Sample.w_failing))
  = if fatal_condition Sample.w_failing || unreadable Sample.w_failing
    then 1%Z else 0%Z.
Proof.
  assert (H : regular_input Sample.no_repr Sample.w_failing).
  { split; [intros l k Hk; exact Hk |].
    split; [intros h r t pr d; reflexivity | split; reflexivity]. }
  split; [exact H | apply exit_status_by_condition; exact H].
Defined.

(** ** The repositories checked *)

Section Checks.

Variable repr_other : json -> string.
Variable w : world.


End Checks.



(** ** Deduplication *)

(** C6.  On well-formed data the entry loop ends, and the badge group it
    has built for a key consists of the badges of the entries kept by the
    deduplication by repo of the valid entries with that key.  The kept
    entries stand in the order of the input, and of the valid entries with
    that key that have one and the same repo exactly one is kept, the
    first. *)
Theorem badge_groups_deduplicated (repr_other : json -> string) (w : world)
    (data : list json) (idx : nat) (p : proc) :
  well_formed repr_other data = true ->
  exists g msgs,
    entry_loop repr_other w idx data groups0 p = (Ok g, add_msgs p msgs) /\
    forall key,
      get_list key (badges_by_key g) = spec_badge_group repr_other w key data /\
      exists kept,
        get_list key (badges_by_key g) = map (badge_of repr_other w) kept /\
        subsequence kept (entries_for repr_other key data) /\
        forall repo,
          filter (fun e => same_repo repo (e_repo e)) kept
          = match find (fun e => same_repo repo (e_repo e))
                       (entries_for repr_other key data) with
            | Some first => [first]
            | None => []
            end.
Proof.
  intros Hwf.
  destruct (entry_loop_groups repr_other w data idx p Hwf)
    as (g & msgs & Hloop & _ & Hgroups).
  exists g, msgs. split; [exact Hloop |].
  intros key. split; [apply Hgroups |].
  exists (first_per_repo (entries_for repr_other key data)).
  split; [apply Hgroups |].
  split; [apply first_per_repo_subsequence | intros repo].
  apply first_per_repo_first.
Qed.

(** An instance: two valid entries with one repository and one key. *)
Lemma badge_groups_deduplicated_witness :
  well_formed Sample.no_repr Sample.two_same_repo = true /\
  exists g msgs,
    entry_loop Sample.no_repr Sample.w_twice 1 Sample.two_same_repo groups0 proc0
    = (Ok g, add_msgs proc0 msgs) /\
    forall key,
      get_list key (badges_by_key g)
      = spec_badge_group Sample.no_repr Sample.w_twice key Sample.two_same_repo /\
      exists kept,
        get_list key (badges_by_key g)
        = map (badge_of Sample.no_repr Sample.w_twice) kept /\
        subsequence kept (entries_for Sample.no_repr key Sample.two_same_repo) /\
        forall repo,
          filter (fun e => same_repo repo (e_repo e)) kept
          = match find (fun e => same_repo repo (e_repo e))
                       (entries_for Sample.no_repr key Sample.two_same_repo) with
            | Some first => [first]
            | None => []
            end.
Proof.
  split; [reflexivity |].
  apply badge_groups_deduplicated. reflexivity.
Defined.

(** ** The existence check *)

(** C7 (amended).  Under the contract of [urlopen], the existence check
    returns true exactly on a success status and false exactly on 404.  Any
    other failure, a failure status other than 404, a [URLError] or any
    other exception out of the request, makes the check raise; the turn of
    the loop then ends normally without a creation request and the loop goes
    on with the next repository.  The check prints an error line for a
    failure status and for a [URLError], the two it catches; any other
    exception passes without a line.  When the creation requests return, the
    loop never raises and never exits, so the status the process ends with
    is not touched. *)
Theorem existence_check_outcomes (w : world) (owner : string) (repo : json)
    (p : proc) :
  urlopen_contract w ->
  let answer := network w (sent p) (GET owner repo (GH_PAT w)) in
  let result := github_repo_exists w owner repo (GH_PAT w) p in
  (fst result = Ok true <->
   exists s, status_of answer = Some s /\ is_2xx s = true) /\
  (fst result = Ok false <-> status_of answer = Some 404%Z) /\
  (check_failed answer = true ->
   (exists e, fst result = Raised e) /\
   (exists msgs,
      snd result
      = {| printed := (printed p ++ msgs)%list;
           sent := (sent p ++ [GET owner repo (GH_PAT w)])%list;
           written := written p |} /\
      if check_caught answer then exists m, msgs = [(Stderr, m)]
      else msgs = []) /\
   ensure_repo w owner repo p = (Ok tt, snd result) /\
   (forall rest,
      ensure_repos w ((owner, repo) :: rest) p
      = ensure_repos w rest (snd result))) /\
  (creations_return w -> forall repos q, fst (ensure_repos w repos q) = Ok tt).
Proof.
  intros Hc answer result.
  pose proof (Hc (sent p) (GET owner repo (GH_PAT w))) as Ha.
  fold answer in Ha.
  assert (Hres : result =
            github_repo_exists w owner repo (GH_PAT w) p) by reflexivity.
  unfold github_repo_exists, urlopen, bind, ret, raise, eprint, emit in Hres.
  cbn [sent printed written] in Hres. fold answer in Hres.
  split; [|split; [|split]].
  - destruct answer as [s|c| |c n|n]; simpl in *.
    + rewrite Hres, Ha. simpl. split; [now exists s | reflexivity].
    + rewrite Hres. split.
      * destruct (c =? 404)%Z; discriminate.
      * intros (s & Hs & H2). inversion Hs; subst. congruence.
    + rewrite Hres. split; [discriminate | now intros (s & Hs & _)].
    + rewrite Hres. split.
      * destruct (c =? 404)%Z; discriminate.
      * intros (s & Hs & H2). inversion Hs; subst. congruence.
    + rewrite Hres. split; [discriminate | now intros (s & Hs & _)].
  - destruct answer as [s|c| |c n|n]; simpl in *.
    + rewrite Hres, Ha. simpl. split; [discriminate |].
      intros H; inversion H; subst. discriminate Ha.
    + rewrite Hres. destruct (c =? 404)%Z eqn:E; simpl.
      * apply Z.eqb_eq in E. subst. now split.
      * split; [discriminate |]. intros H; inversion H; subst.
        discriminate E.
    + rewrite Hres. split; discriminate.
    + rewrite Hres. destruct (c =? 404)%Z eqn:E; simpl.
      * apply Z.eqb_eq in E. subst. now split.
      * split; [discriminate |]. intros H; inversion H; subst.
        discriminate E.
    + rewrite Hres. split; discriminate.
  - intros Hf.
    assert (Hturn : ensure_repo w owner repo p = (Ok tt, snd result)).
    { unfold ensure_repo, try_except, bind at 1. fold result.
      destruct answer as [s|c| |c n|n]; simpl in Hf; try discriminate;
        rewrite Hres;
        try (destruct (c =? 404)%Z; [discriminate | reflexivity]);
        reflexivity. }
    split; [|split; [|split]].
    + destruct answer as [s|c| |c n|n]; simpl in Hf; try discriminate;
        rewrite Hres;
        try (destruct (c =? 404)%Z; [discriminate | now eexists]);
        now eexists.
    + destruct answer as [s|c| |c n|n]; simpl in Hf |- *; try discriminate;
        rewrite Hres;
        try (destruct (c =? 404)%Z; [discriminate |];
             eexists; split; [reflexivity | now eexists]);
        try (eexists; split; [reflexivity | now eexists]).
      exists []. simpl. now rewrite List.app_nil_r.
    + exact Hturn.
    + intros rest. cbn [ensure_repos]. unfold bind at 1. now rewrite Hturn.
  - intros Hq repos q. destruct (ensure_repos_ok w repos Hq q) as (p' & H & _).
    now rewrite H.
Qed.

(** C7 as stated fails: the connection is dropped while the answer to the
    existence check is read, and the failure is not logged.  The check
    raises without a line, the loop passes over it, and the run prints
    nothing about it. *)
Lemma existence_check_counterexample :
  let check := GET "Thhundder" (JStr "foo-repo") "token" in
  check_failed (network Sample.w_dropped [] check) = true /\
  github_repo_exists Sample.w_dropped "Thhundder" (JStr "foo-repo") "token"
                     proc0
  = (Raised (OtherError "RemoteDisconnected"),
     {| printed := []; sent := [check]; written := None |}) /\
  sent (snd (run Sample.no_repr Sample.w_dropped)) = [check] /\
  printed (snd (run Sample.no_repr Sample.w_dropped))
  = [(Stdout, MsgUpdated)].
Proof. repeat split; vm_compute; reflexivity. Qed.

(** An instance: a network that answers every request with status 500. *)
Lemma existence_check_outcomes_witness :
  urlopen_contract Sample.w_failing /\
  let answer := network Sample.w_failing (sent proc0)
                  (GET "Thhundder" (JStr "foo-repo") (GH_PAT Sample.w_failing)) in
  let result := github_repo_exists Sample.w_failing "Thhundder" (JStr "foo-repo")
                  (GH_PAT Sample.w_failing) proc0 in
  (fst result = Ok true <->
   exists s, status_of answer = Some s /\ is_2xx s = true) /\
  (fst result = Ok false <-> status_of answer = Some 404%Z) /\
  (check_failed answer = true ->
   (exists e, fst result = Raised e) /\
   (exists msgs,
      snd result
      = {| printed := (printed proc0 ++ msgs)%list;
           sent := (sent proc0
                    ++ [GET "Thhundder" (JStr "foo-repo")
                          (GH_PAT Sample.w_failing)])%list;
           written := written proc0 |} /\
      if check_caught answer then exists m, msgs = [(Stderr, m)]
      else msgs = []) /\
   ensure_repo Sample.w_failing "Thhundder" (JStr "foo-repo") proc0
   = (Ok tt, snd result) /\
   (forall rest,
      ensure_repos Sample.w_failing (("Thhundder", JStr "foo-repo") :: rest) proc0
      = ensure_repos Sample.w_failing rest (snd result))) /\
  (creations_return Sample.w_failing ->
   forall repos q, fst (ensure_repos Sample.w_failing repos q) = Ok tt).
Proof.
  assert (H : urlopen_contract Sample.w_failing)
    by (intros h r; reflexivity).
  split; [exact H |].
  exact (existence_check_outcomes Sample.w_failing "Thhundder" (JStr "foo-repo")
           proc0 H).
Defined.

(** ** A run without a credential *)

Section NoCredential.

Variable repr_other : json -> string.

Lemma same_owner (w w' : world) :
  env_GH_OWNER w = env_GH_OWNER w' -> GH_OWNER w = GH_OWNER w'.
Proof. intros H. unfold GH_OWNER. now rewrite H. Qed.

Lemma write_if_changed_keeps (text new_readme : string) (p : proc)
    (m : stream * message) :
  In m (printed p) -> In m (printed (snd (write_if_changed text new_readme p))).
Proof.
  intros H. unfold write_if_changed.
  destruct (negb (String.eqb new_readme text)); simpl;
    apply in_or_app; now left.
Qed.




End NoCredential.



(** ** Elements that are no entries *)

Section BadElements.
Import Py.

Variable repr_other : json -> string.
Variable w : world.

(** C9.  When the parsed list holds an element that is no object, the loop
    body raises [AttributeError] on that element and prints no warning for
    it; the process ends with status 1 and writes nothing, and once the
    README is read it ends by an exception that nothing catches. *)
Theorem non_object_element_raises (items : list json) (x : json) :
  projects_json w = LoadOk (JList items) ->
  In x items -> is_object x = false ->
  (forall idx g p,
     process_entry repr_other w idx x g p = (Raised AttributeError, p)) /\
  exit_status (fst (run repr_other w)) = 1%Z /\
  written (snd (run repr_other w)) = None /\
  (forall text, readme_md w = ReadOk text ->
                exists e, fst (run repr_other w) = Raised e).
Proof.
  intros Hp Hin Hx. split.
  { intros idx g p. now apply process_entry_not_object. }
  destruct (readme_md w) as [text| |name] eqn:Hr.
  - rewrite (run_after_read repr_other w _ _ Hp Hr). unfold bind.
    destruct (entry_loop_non_object repr_other w items x Hin Hx 1 groups0
                (after_scan text)) as (e & p' & Hloop).
    destruct (entry_loop_frame repr_other w items 1 groups0 (after_scan text))
      as (_ & Hw & _).
    rewrite Hloop in *. simpl in *. rewrite written_after_scan in Hw.
    repeat split; [exact Hw | intros; now exists e].
  - rewrite (run_missing_readme repr_other w _ Hp Hr).
    repeat split; discriminate.
  - rewrite (run_read_failed repr_other w _ _ Hp Hr).
    repeat split; discriminate.
Qed.

Lemma lookup_remove_field (k : string) (fields : list (string * json)) :
  lookup k (remove_field k fields) = None.
Proof.
  induction fields as [|[k' v] fields IH]; simpl; [reflexivity |].
  destruct (String.eqb k k') eqn:E; simpl; [exact IH |].
  now rewrite IH, E.
Qed.

Lemma process_entry_incomplete (idx : nat) (fields : list (string * json))
    (g : groups) (p : proc) :
  truthy (field "name" fields) && truthy (field "language" fields)
  && truthy (field "repo" fields) = false ->
  process_entry repr_other w idx (JObj fields) g p
  = (Ok g, add_msgs p [(Stderr, MsgIncomplete idx)]).
Proof.
  intros H. rewrite process_entry_object.
  unfold valid_entry, skip_message. now rewrite H.
Qed.

(** C10.  An entry in which name, language or repo is present with a falsy
    value is passed over with the warning for an incomplete entry, leaves
    the badge groups and the repository references as they are, and is
    treated as the entry without that field. *)
Theorem falsy_field_skipped (fields : list (string * json)) (k : string)
    (v : json) (idx : nat) (g : groups) (p : proc) :
  In k ["name"; "language"; "repo"] ->
  lookup k fields = Some v -> truthy v = false ->
  process_entry repr_other w idx (JObj fields) g p
  = (Ok g, add_msgs p [(Stderr, MsgIncomplete idx)]) /\
  process_entry repr_other w idx (JObj (remove_field k fields)) g p
  = process_entry repr_other w idx (JObj fields) g p.
Proof.
  intros Hk Hl Hv.
  assert (H1 : field k fields = v) by (unfold field; now rewrite Hl).
  assert (H2 : truthy (field k (remove_field k fields)) = false)
    by (unfold field; now rewrite lookup_remove_field).
  rewrite <- H1 in Hv.
  assert (Hboth :
    truthy (field "name" fields) && truthy (field "language" fields)
    && truthy (field "repo" fields) = false /\
    truthy (field "name" (remove_field k fields))
    && truthy (field "language" (remove_field k fields))
    && truthy (field "repo" (remove_field k fields)) = false).
  { simpl in Hk. destruct Hk as [<-|[<-|[<-|[]]]]; rewrite Hv, H2;
      split; now rewrite ?andb_false_r. }
  destruct Hboth as [Ha Hb].
  now rewrite !process_entry_incomplete.
Qed.

End BadElements.

(** An instance: a list whose second element is a string. *)
Lemma non_object_element_raises_witness :
  projects_json Sample.w_bad_element
  = LoadOk (JList [Sample.project "Foo" "python" "foo-repo"; JStr "Bar"]) /\
  In (JStr "Bar") [Sample.project "Foo" "python" "foo-repo"; JStr "Bar"] /\
  is_object (JStr "Bar") = false /\
  (forall idx g p,
     process_entry Sample.no_repr Sample.w_bad_element idx (JStr "Bar") g p
     = (Raised AttributeError, p)) /\
  exit_status (fst (run Sample.no_repr Sample.w_bad_element)) = 1%Z /\
  written (snd (run Sample.no_repr Sample.w_bad_element)) = None /\
  (forall text, readme_md Sample.w_bad_element = ReadOk text ->
                exists e, fst (run Sample.no_repr Sample.w_bad_element)
                          = Raised e).
Proof.
  assert (Hin : In (JStr "Bar")
                   [Sample.project "Foo" "python" "foo-repo"; JStr "Bar"])
    by (simpl; right; left; reflexivity).
  split; [reflexivity | split; [exact Hin | split; [reflexivity |]]].
  exact (non_object_element_raises Sample.no_repr Sample.w_bad_element
           [Sample.project "Foo" "python" "foo-repo"; JStr "Bar"] (JStr "Bar")
           eq_refl Hin eq_refl).
Defined.

(** An instance: an entry whose repo is the number 0. *)
Lemma falsy_field_skipped_witness :
  In "repo" ["name"; "language"; "repo"] /\
  Py.lookup "repo" [("name", JStr "Foo"); ("language", JStr "c"); ("repo", JInt 0)]
  = Some (JInt 0) /\
  Py.truthy (JInt 0) = false /\
  process_entry Sample.no_repr Sample.w_no_pat 3
    (JObj [("name", JStr "Foo"); ("language", JStr "c"); ("repo", JInt 0)])
    groups0 proc0
  = (Ok groups0, add_msgs proc0 [(Stderr, MsgIncomplete 3)]) /\
  process_entry Sample.no_repr Sample.w_no_pat 3
    (JObj (remove_field "repo"
             [("name", JStr "Foo"); ("language", JStr "c"); ("repo", JInt 0)]))
    groups0 proc0
  = process_entry Sample.no_repr Sample.w_no_pat 3
      (JObj [("name", JStr "Foo"); ("language", JStr "c"); ("repo", JInt 0)])
      groups0 proc0.
Proof.
  assert (Hin : In "repo" ["name"; "language"; "repo"])
    by (simpl; right; right; left; reflexivity).
  split; [exact Hin | split; [reflexivity | split; [reflexivity |]]].
  exact (falsy_field_skipped Sample.no_repr Sample.w_no_pat
           [("name", JStr "Foo"); ("language", JStr "c"); ("repo", JInt 0)]
           "repo" (JInt 0) 3 groups0 proc0 Hin eq_refl eq_refl).
Defined.

(** * Further properties *)

(** ** The replace operation: which region it takes *)

Section ReplaceFurther.
Import Str StrFacts.

(** A first occurrence has no occurrence before it. *)
Lemma find_sub_first (n h run rest : string) :
  find_sub n h = Some (run, rest) ->
  forall a b, run ++ n = a ++ n ++ b -> length run <= length a.
Proof.
  revert run. induction h as [|c h IH]; intros run H a b Hab.
  - simpl in H. destruct (strip_prefix n ""); [|discriminate].
    inversion H; subst. simpl. lia.
  - pose proof (find_sub_sound _ _ H) as Hh. simpl in H.
    destruct (strip_prefix n (String c h)) as [r|] eqn:E.
    + inversion H; subst. simpl. lia.
    + destruct (find_sub n h) as [[run' rest']|] eqn:F; [|discriminate].
      inversion H; subst run rest'. clear H.
      destruct a as [|d a].
      * exfalso. change ("" ++ n ++ b) with (n ++ b) in Hab.
        assert (Hs : String c h = n ++ b ++ rest).
        { rewrite Hh. transitivity ((String c run' ++ n) ++ rest).
          - now rewrite app_assoc.
          - rewrite Hab. now rewrite app_assoc. }
        rewrite Hs, strip_prefix_app in E. discriminate.
      * simpl in Hab. injection Hab as _ Hab. simpl.
        apply le_n_S. now apply (IH run' eq_refl a b).
Qed.

(** The run up to a first occurrence holds no occurrence. *)
Lemma find_sub_run_free (n h run rest : string) :
  n <> "" -> find_sub n h = Some (run, rest) ->
  forall a b, run <> a ++ n ++ b.
Proof.
  intros Hn H a b Hrun.
  assert (Hle : length run <= length a).
  { apply (find_sub_first _ _ _ _ H a (b ++ n)).
    rewrite Hrun. now rewrite !app_assoc. }
  rewrite Hrun, !length_app in Hle.
  destruct n; [congruence | simpl in Hle; lia].
Qed.

(** A start sentinel that an end sentinel follows is found. *)
Lemma pattern_search_complete (s e a b c : string) :
  pattern_search s e (a ++ s ++ b ++ e ++ c) <> None.
Proof.
  assert (Hf : find_sub e (b ++ e ++ c) <> None).
  { apply find_sub_suffix.
    rewrite (find_sub_front e (e ++ c) c (strip_prefix_app e c)).
    discriminate. }
  induction a as [|x a IH].
  - simpl. destruct (find_sub e (b ++ e ++ c)) as [[i p]|] eqn:F;
      [|congruence].
    now rewrite (pattern_search_front s e (s ++ b ++ e ++ c) _ i p
                   (strip_prefix_app s _) F).
  - change (String x a ++ s ++ b ++ e ++ c)
      with (String x (a ++ s ++ b ++ e ++ c)).
    cbn [pattern_search].
    destruct (match strip_prefix s (String x (a ++ s ++ b ++ e ++ c)) with
              | Some rest => find_sub e rest
              | None => None
              end) as [[i p]|]; [discriminate |].
    destruct (pattern_search s e (a ++ s ++ b ++ e ++ c)) as [[[? ?] ?]|];
      [discriminate | congruence].
Qed.

(** The match begins at the first start sentinel. *)
Lemma pattern_search_first (s e t pre old post : string) :
  pattern_search s e t = Some (pre, old, post) ->
  forall a b, pre ++ s = a ++ s ++ b -> length pre <= length a.
Proof.
  revert t. induction pre as [|c pre IH]; intros t H a b Hab; [simpl; lia |].
  destruct (pattern_search_sound _ _ _ H) as [Ht Hf].
  destruct t as [|d t]; [discriminate |].
  simpl in Ht. injection Ht as Hd Ht. subst d.
  cbn [pattern_search] in H.
  destruct (match strip_prefix s (String c t) with
            | Some rest => find_sub e rest
            | None => None
            end) as [[i p]|] eqn:A; [discriminate |].
  destruct (pattern_search s e t) as [[[pre' o] q]|] eqn:P; [|discriminate].
  inversion H; subst pre' o q. clear H.
  destruct a as [|d a].
  - exfalso. change ("" ++ s ++ b) with (s ++ b) in Hab.
    assert (Hs : String c t = s ++ b ++ old ++ e ++ post).
    { rewrite Ht.
      transitivity ((String c pre ++ s) ++ old ++ e ++ post).
      - simpl. now rewrite app_assoc.
      - rewrite Hab. now rewrite app_assoc. }
    rewrite Hs, strip_prefix_app in A.
    apply (find_sub_suffix e b (old ++ e ++ post)); [|exact A].
    rewrite Hf. discriminate.
  - simpl in Hab. injection Hab as _ Hab. simpl.
    apply le_n_S. now apply (IH t P a b).
Qed.

Lemma end_marker_not_empty (key : string) : end_marker key <> "".
Proof. unfold end_marker. discriminate. Qed.

(** X1.  A document in which no start sentinel of the key is followed by an
    end sentinel of the key comes back as it is, whatever the content, a
    content that would be a bad replacement template included. *)
Theorem replace_without_pair (doc key inner : string) :
  ~ has_pair key doc ->
  replace_between_markers doc key inner = Ret doc.
Proof.
  intros Hno. apply replace_not_found.
  destruct (pattern_search (start_marker key) (end_marker key) doc)
    as [[[pre old] post]|] eqn:Hs; [|reflexivity].
  exfalso. apply Hno.
  destruct (pattern_search_sound _ _ _ Hs) as [Hdoc _].
  now exists pre, old, post.
Qed.

(** X2.  When neither the key nor the content holds a backslash and the
    document has a pair for the key, the replacement exchanges the region of
    one pair for the content and keeps the text before and after it, the
    sentinels included.  The pair is the first one: no start sentinel of the
    key begins before its start sentinel, and the region that is replaced
    holds no end sentinel of the key. *)
Theorem replace_first_pair (doc key inner : string) :
  no_backslash key = true -> no_backslash inner = true ->
  has_pair key doc ->
  exists pre old post,
    doc = pre ++ start_marker key ++ old ++ end_marker key ++ post /\
    replace_between_markers doc key inner
    = Ret (pre ++ start_marker key ++ inner ++ end_marker key ++ post) /\
    (forall a b, pre ++ start_marker key = a ++ start_marker key ++ b ->
                 b = "") /\
    (forall a b, old <> a ++ end_marker key ++ b).
Proof.
  intros Hk Hi (a0 & b0 & c0 & Hdoc).
  destruct (pattern_search (start_marker key) (end_marker key) doc)
    as [[[pre old] post]|] eqn:Hs.
  2:{ exfalso. rewrite Hdoc in Hs.
      now apply (pattern_search_complete (start_marker key) (end_marker key)
                   a0 b0 c0). }
  exists pre, old, post.
  destruct (pattern_search_sound _ _ _ Hs) as [Hd Hf].
  split; [exact Hd |]. split.
  - rewrite (replace_found doc key inner pre old post Hk Hi Hs).
    now rewrite !app_assoc.
  - split.
    + intros a b Hab.
      pose proof (pattern_search_first _ _ _ _ _ _ Hs a b Hab) as Hle.
      apply (f_equal String.length) in Hab. rewrite !length_app in Hab.
      destruct b; [reflexivity | simpl in Hab; lia].
    + apply (find_sub_run_free (end_marker key) (old ++ end_marker key ++ post)
               old post (end_marker_not_empty key) Hf).
Qed.

End ReplaceFurther.

(** An instance: a document without sentinels and a content that no
    template parser accepts. *)
Lemma replace_without_pair_witness :
  ~ has_pair "cpp" Sample2.doc_plain /\
  replace_between_markers Sample2.doc_plain "cpp" "\q" = Ret Sample2.doc_plain.
Proof.
  assert (H : ~ has_pair "cpp" Sample2.doc_plain).
  { intros (a & b & c & E). apply (f_equal String.length) in E.
    rewrite !StrFacts.length_app in E. simpl in E. lia. }
  split; [exact H | exact (replace_without_pair Sample2.doc_plain "cpp" "\q" H)].
Defined.

(** An instance: a document with two pairs for one key. *)
Lemma replace_first_pair_witness :
  Str.no_backslash "cpp" = true /\ Str.no_backslash "NEW" = true /\
  has_pair "cpp" Sample2.doc_two_pairs /\
  exists pre old post,
    Sample2.doc_two_pairs
    = pre ++ start_marker "cpp" ++ old ++ end_marker "cpp" ++ post /\
    replace_between_markers Sample2.doc_two_pairs "cpp" "NEW"
    = Ret (pre ++ start_marker "cpp" ++ "NEW" ++ end_marker "cpp" ++ post) /\
    (forall a b, pre ++ start_marker "cpp" = a ++ start_marker "cpp" ++ b ->
                 b = "") /\
    (forall a b, old <> a ++ end_marker "cpp" ++ b).
Proof.
  assert (H : has_pair "cpp" Sample2.doc_two_pairs).
  { exists "| ", "a",
      (" | <!-- PROJECTS:cpp:START -->b<!-- PROJECTS:cpp:END --> |").
    reflexivity. }
  split; [reflexivity | split; [reflexivity | split; [exact H |]]].
  exact (replace_first_pair Sample2.doc_two_pairs "cpp" "NEW"
           eq_refl eq_refl H).
Defined.

(** ** Language normalization *)

Section NormalizeFurther.
Import Str StrFacts Py Scanner.

Variable repr_other : json -> string.

Lemma lower_char_space (c : ascii) : is_space (lower_char c) = is_space c.
Proof. destruct c as [[] [] [] [] [] [] [] []]; reflexivity. Qed.

Lemma lower_char_idem (c : ascii) : lower_char (lower_char c) = lower_char c.
Proof. destruct c as [[] [] [] [] [] [] [] []]; reflexivity. Qed.

Lemma lower_idem (s : string) : lower (lower s) = lower s.
Proof.
  induction s as [|c s IH]; simpl; [reflexivity |].
  now rewrite lower_char_idem, IH.
Qed.

Lemma skip_spaces_lower (s : string) :
  skip_spaces (lower s) = lower (skip_spaces s).
Proof.
  induction s as [|c s IH]; simpl; [reflexivity |].
  rewrite lower_char_space. now destruct (is_space c).
Qed.

Lemma rstrip_lower (s : string) : rstrip (lower s) = lower (rstrip s).
Proof.
  induction s as [|c s IH]; simpl; [reflexivity |].
  rewrite IH. destruct (rstrip s); simpl; [|reflexivity].
  rewrite lower_char_space. now destruct (is_space c).
Qed.

Lemma strip_lower (s : string) : strip (lower s) = lower (strip s).
Proof. unfold strip. now rewrite skip_spaces_lower, rstrip_lower. Qed.

Lemma rstrip_idem (s : string) : rstrip (rstrip s) = rstrip s.
Proof.
  induction s as [|c s IH]; simpl; [reflexivity |].
  destruct (rstrip s) as [|a r] eqn:E.
  - destruct (is_space c) eqn:Ec; simpl; [reflexivity | now rewrite Ec].
  - cbn [rstrip]. cbn [rstrip] in IH. now rewrite IH.
Qed.

(** What is left of the front after [skip_spaces] begins with no space. *)
Lemma skip_spaces_head (s : string) :
  match skip_spaces s with
  | "" => True
  | String c _ => is_space c = false
  end.
Proof.
  induction s as [|c s IH]; simpl; [exact I |].
  destruct (is_space c) eqn:E; [exact IH | exact E].
Qed.

Lemma rstrip_head (c : ascii) (s : string) :
  is_space c = false -> exists r, rstrip (String c s) = String c r.
Proof.
  intros E. simpl. destruct (rstrip s); [|now eexists].
  rewrite E. now eexists.
Qed.

(** What [strip] returns has no space at its front and none at its end:
    stripping it again changes nothing. *)
Lemma strip_idem (s : string) : strip (strip s) = strip s.
Proof.
  unfold strip. pose proof (skip_spaces_head s) as H.
  destruct (skip_spaces s) as [|c x]; [reflexivity |].
  destruct (rstrip_head c x H) as [r Hr]. rewrite Hr.
  simpl skip_spaces. rewrite H. rewrite <- Hr. apply rstrip_idem.
Qed.

Lemma dict_get_in {V : Type} (k : string) (v : V) (d : list (string * V)) :
  dict_get k d = Some v -> In (k, v) d.
Proof.
  induction d as [|[k' v'] d IH]; simpl; [discriminate |].
  destruct (String.eqb_spec k k') as [->|].
  - intros H; inversion H. now left.
  - intros H. right. now apply IH.
Qed.

Lemma normalize_language_canonical (s : string) :
  normalize_language repr_other (JStr s)
  = normalize_language repr_other (JStr (lower (strip s))).
Proof.
  unfold normalize_language. simpl.
  destruct s as [|c s]; [reflexivity |].
  cbn [String.eqb negb].
  destruct (String.eqb_spec (lower (strip (String c s))) "") as [E|E].
  - rewrite E. reflexivity.
  - simpl. now rewrite strip_lower, lower_idem, strip_idem.
Qed.

(** X3.  The normalization of a language given as a string looks at the
    string without the whitespace at its ends and in lower case only: the
    string and that form of it are normalized alike, and so are two strings
    with the same such form. *)
Theorem normalize_language_case_and_space (s : string) :
  normalize_language repr_other (JStr s)
  = normalize_language repr_other (JStr (lower (strip s))) /\
  forall t, lower (strip s) = lower (strip t) ->
            normalize_language repr_other (JStr s)
            = normalize_language repr_other (JStr t).
Proof.
  split; [apply normalize_language_canonical |].
  intros t H.
  rewrite (normalize_language_canonical s), (normalize_language_canonical t).
  now rewrite H.
Qed.

(** X4.  Whatever the language, a marker key that the normalization returns
    is one of the seven marker keys of the table, with its display name; it
    is not empty, consists of characters the scanner admits in a key, and
    holds no backslash. *)
Theorem normalized_key_is_marker_key (raw : json) (display key : string) :
  normalize_language repr_other raw = Some (display, key) ->
  In (display, key) marker_keys /\
  key <> "" /\
  Str.forallb is_key_char key = true /\
  no_backslash key = true.
Proof.
  unfold normalize_language. destruct (negb (truthy raw)); [discriminate |].
  intros H. apply dict_get_in in H. unfold LANG_MAP in H.
  repeat (destruct H as [H|H];
          [inversion H; subst;
           repeat split; try discriminate; try reflexivity;
           simpl; tauto |]).
  contradiction.
Qed.

End NormalizeFurther.

(** An instance: a language written with capitals and spaces around it. *)
Lemma normalized_key_is_marker_key_witness :
  normalize_language Sample.no_repr (JStr " C++ ") = Some ("C++", "cpp") /\
  In ("C++", "cpp") marker_keys /\
  "cpp" <> "" /\
  Str.forallb Scanner.is_key_char "cpp" = true /\
  Str.no_backslash "cpp" = true.
Proof.
  split; [reflexivity |].
  exact (normalized_key_is_marker_key Sample.no_repr (JStr " C++ ")
           "C++" "cpp" eq_refl).
Defined.

(** ** The badge *)

Section BadgeFurther.
Import Str StrFacts Py.

Variable repr_other : json -> string.






End BadgeFurther.
(** ** Creation of a repository *)

Section CreateFurther.

Variable w : world.

(** X6.  The creation request hands one POST request to [urlopen] and
    touches nothing written.  When the answer is a response, an [HTTPError]
    or a [URLError], it returns, true exactly on a response with a success
    status: success prints nothing, every failure prints one line on the
    error stream, and a 422 status the line kept for it.  Any other
    exception, and the one raised when the body of an [HTTPError] with a
    status other than 422 cannot be read, passes through with nothing
    printed. *)
Theorem create_repo_outcomes (owner : string) (repo : json) (token : string)
    (private : bool) (description : string) (p : proc) :
  let create := POST repo token private description in
  let answer := network w (sent p) create in
  let r := github_create_repo w owner repo token private description p in
  exists msgs,
    snd r = {| printed := (printed p ++ msgs)%list;
               sent := (sent p ++ [create])%list;
               written := written p |} /\
    match creation_raises answer with
    | Some e => fst r = Raised e /\ msgs = []
    | None =>
        fst r = Ok (creation_succeeds answer) /\
        (if creation_succeeds answer then msgs = []
         else exists m, msgs = [(Stderr, m)]) /\
        (answer = HTTPErr 422 \/ (exists name, answer = HTTPErrBroken 422 name)
         -> msgs = [(Stderr, MsgPost422 repo)])
    end.
Proof.
  unfold github_create_repo, urlopen, bind, ret, raise, eprint, emit,
    creation_raises, creation_succeeds.
  cbn [sent printed written].
  destruct (network w (sent p) (POST repo token private description))
    as [s|c| |c n|n] eqn:E.
  - destruct (is_2xx s) eqn:Es; cbn [fst snd].
    + exists []. rewrite List.app_nil_r. repeat split.
      intros [H|[n H]]; discriminate H.
    + exists [(Stderr, MsgPostStatus s)]. repeat split; [now eexists |].
      intros [H|[n H]]; discriminate H.
  - destruct (c =? 422)%Z eqn:Ec; cbn [fst snd].
    + exists [(Stderr, MsgPost422 repo)]. repeat split. now eexists.
    + exists [(Stderr, MsgPostHTTP c)]. repeat split; [now eexists |].
      intros [H|[n H]]; [|discriminate H].
      inversion H; subst. discriminate Ec.
  - exists [(Stderr, MsgPostURL)]. cbn [fst snd].
    repeat split; [now eexists |]. intros [H|[n H]]; discriminate H.
  - destruct (c =? 422)%Z eqn:Ec; cbn [fst snd].
    + exists [(Stderr, MsgPost422 repo)]. repeat split. now eexists.
    + exists []. rewrite List.app_nil_r. now repeat split.
  - exists []. cbn [fst snd]. rewrite List.app_nil_r. now repeat split.
Qed.

(** X7.  One turn of the reconciliation loop writes nothing and hands the
    existence check to [urlopen] first.  A creation request follows exactly
    when the check reported the repository missing: a repository that
    exists, or whose check failed, is never created, the turn then ends
    normally, and when the repository exists it prints nothing.  After a
    creation request that returns, the turn ends normally and one line
    reports the result: the repository created, on the output stream, or,
    after the error line of the failed request, the repository not created.
    A creation request that raises ends the turn by its exception with
    nothing printed. *)
Theorem creation_only_when_missing (owner : string) (repo : json) (p : proc) :
  let check := GET owner repo (GH_PAT w) in
  let create := POST repo (GH_PAT w) false "" in
  let answer := network w (sent p) check in
  let r := ensure_repo w owner repo p in
  written (snd r) = written p /\
  (reports_missing answer = false ->
   fst r = Ok tt /\
   sent (snd r) = (sent p ++ [check])%list /\
   ((exists s, answer = Response s /\ is_2xx s = true) ->
    printed (snd r) = printed p)) /\
  (reports_missing answer = true ->
   let reply := network w (sent p ++ [check])%list create in
   sent (snd r) = (sent p ++ [check; create])%list /\
   match creation_raises reply with
   | Some e => fst r = Raised e /\ printed (snd r) = printed p
   | None =>
       fst r = Ok tt /\
       if creation_succeeds reply
       then printed (snd r)
            = (printed p ++ [(Stdout, MsgCreated owner repo)])%list
       else exists m,
              printed (snd r)
              = (printed p
                 ++ [(Stderr, m); (Stderr, MsgNotCreated owner repo)])%list
   end).
Proof.
  intros check create answer r.
  split; [apply (ensure_repo_turn w owner repo p) |].
  subst check create answer r.
  unfold ensure_repo, try_except, github_repo_exists, github_create_repo,
    urlopen, bind, ret, raise, print, eprint, emit, reports_missing,
    creation_raises, creation_succeeds.
  cbn [sent printed written].
  destruct (network w (sent p) (GET owner repo (GH_PAT w))) as [s|c| |c n|n];
    [destruct (is_2xx s) eqn:Es | destruct (c =? 404)%Z |
     | destruct (c =? 404)%Z |];
    cbn [sent printed written negb fst snd];
    split; intros Hm; try discriminate Hm;
    first
      [ solve [ repeat split;
                intros (s' & Hs & H2); try discriminate;
                inversion Hs; subst; congruence ]
      | destruct (network w (sent p ++ [GET owner repo (GH_PAT w)])
                   (POST repo (GH_PAT w) false "")) as [s'|c'| |c' n'|n'];
        [destruct (is_2xx s') | destruct (c' =? 422)%Z |
         | destruct (c' =? 422)%Z |];
        cbn [sent printed written fst snd];
        repeat split; try (now rewrite <- List.app_assoc);
        eexists; now rewrite <- List.app_assoc ].
Qed.


End CreateFurther.

(** ** What a run writes and when *)

Section RunProperties.
Import Str StrFacts Py.

Variable repr_other : json -> string.
Variable w : world.



(** X11.  When the entry list is absent, not valid JSON or not a list, when
    the README is absent, when one of the two files cannot be read or
    decoded, and when the list is not well-formed (an element that is no
    object, a repo that cannot be a set element), the run ends with status 1
    without a request sent and without the README written. *)
Theorem bad_input_sends_nothing :
  fatal_condition w = true \/ unreadable w = true \/
  (exists items, projects_json w = LoadOk (JList items) /\
                 well_formed repr_other items = false) ->
  exit_status (fst (run repr_other w)) = 1%Z /\
  sent (snd (run repr_other w)) = [] /\
  written (snd (run repr_other w)) = None.
Proof.
  intros H.
  destruct (fatal_condition w) eqn:Hf.
  { destruct (run_fatal repr_other w Hf) as (m & Hm & _). rewrite Hm.
    now repeat split. }
  destruct (unreadable w) eqn:Hu.
  { destruct (run_unreadable repr_other w Hu) as (n & Hn). rewrite Hn.
    now repeat split. }
  destruct H as [H|[H|(items & Hp & Hwf)]]; try discriminate.
  destruct (run_not_fatal w Hf Hu) as (items' & text & Hp' & Hr).
  assert (items' = items) by congruence. subst items'.
  rewrite (run_stages repr_other w _ _ Hp Hr).
  destruct (stages_write_nothing repr_other w items text)
    as (Hs2 & Hw2 & _ & _).
  destruct (entry_loop_ill_formed repr_other w items Hwf 1 groups0
              (after_scan text)) as (e & p' & Hloop).
  rewrite Hloop in *. simpl in *. now repeat split.
Qed.

(** X12.  When no key that the replacement step visits has a pair of
    sentinels in the README, a start sentinel with one space on each side
    followed by such an end sentinel, the README is not written, whatever
    the entries are. *)
Theorem no_pair_no_write (text : string) :
  readme_md w = ReadOk text ->
  (forall k, In k (key_order w (Scanner.collect_readme_marker_keys text)) ->
             ~ has_pair k text) ->
  written (snd (run repr_other w)) = None.
Proof.
  intros Hr Hno.
  destruct (fatal_condition w) eqn:Hf.
  { destruct (run_fatal repr_other w Hf) as (m & Hm & _). now rewrite Hm. }
  destruct (unreadable w) eqn:Hu.
  { destruct (run_unreadable repr_other w Hu) as (n & Hn). now rewrite Hn. }
  destruct (run_not_fatal w Hf Hu) as (items & text' & Hp & Hr').
  assert (text' = text) by congruence. subst text'.
  rewrite (run_stages repr_other w _ _ Hp Hr).
  destruct (stages_write_nothing repr_other w items text)
    as (_ & Hw2 & _ & H3).
  destruct (entry_loop repr_other w 1 items groups0 (after_scan text))
    as [[g| |] p2]; simpl in *; try assumption.
  destruct (H3 (repos_needed g)) as (Hw3 & _).
  destruct (reconcile w (repos_needed g) p2) as [[u| |] p3]; simpl in *;
    try assumption.
  rewrite (inject_without_pairs g _ text proc0 Hno). simpl.
  rewrite write_if_changed_cases, String.eqb_refl. simpl. exact Hw3.
Qed.


End RunProperties.

(** An instance: a list whose second element is a string. *)
Lemma bad_input_sends_nothing_witness :
  (fatal_condition Sample.w_bad_element = true \/
   unreadable Sample.w_bad_element = true \/
   (exists items,
      projects_json Sample.w_bad_element = LoadOk (JList items) /\
      well_formed Sample.no_repr items = false)) /\
  exit_status (fst (run Sample.no_repr Sample.w_bad_element)) = 1%Z /\
  sent (snd (run Sample.no_repr Sample.w_bad_element)) = [] /\
  written (snd (run Sample.no_repr Sample.w_bad_element)) = None.
Proof.
  assert (H : fatal_condition Sample.w_bad_element = true \/
              unreadable Sample.w_bad_element = true \/
              (exists items,
                 projects_json Sample.w_bad_element = LoadOk (JList items) /\
                 well_formed Sample.no_repr items = false)).
  { right. right. eexists. split; reflexivity. }
  split; [exact H |].
  exact (bad_input_sends_nothing Sample.no_repr Sample.w_bad_element H).
Defined.

(** An instance: sentinels written without the inner spaces. *)
Lemma no_pair_no_write_witness :
  readme_md Sample.w_tight = ReadOk Sample.doc_tight /\
  (forall k,
     In k (key_order Sample.w_tight
             (Scanner.collect_readme_marker_keys Sample.doc_tight)) ->
     ~ has_pair k Sample.doc_tight) /\
  written (snd (run Sample.no_repr Sample.w_tight)) = None.
Proof.
  assert (H : forall k,
             In k (key_order Sample.w_tight
                     (Scanner.collect_readme_marker_keys Sample.doc_tight)) ->
             ~ has_pair k Sample.doc_tight).
  { intros k Hk. change (In k ["cpp"]) in Hk.
    destruct Hk as [<-|[]]. intros (a & b & c & E).
    apply (f_equal String.length) in E.
    rewrite !StrFacts.length_app in E. simpl in E. lia. }
  split; [reflexivity | split; [exact H |]].
  exact (no_pair_no_write Sample.no_repr Sample.w_tight Sample.doc_tight
           eq_refl H).
Defined.


(** ** Entries that are passed over *)

Section SkippedEntries.
Import Str StrFacts Py.

Variable repr_other : json -> string.
Variable w : world.

(** The loop ends in the same way on the list without the objects it
    passes over. *)
Lemma entry_loop_drop_skipped (data : list json) :
  forall idx idx' g p p',
    fst (entry_loop repr_other w idx data g p)
    = fst (entry_loop repr_other w idx' (drop_skipped repr_other data) g p').
Proof.
  induction data as [|item data IH]; intros idx idx' g p p'; [reflexivity |].
  unfold drop_skipped. cbn [filter]. fold (drop_skipped repr_other data).
  destruct (is_object item) eqn:Ho.
  - destruct item; try discriminate Ho. cbn [negb orb].
    destruct (valid_entry repr_other (JObj fields)) as [e|] eqn:E.
    + cbn [entry_loop]. unfold bind. rewrite !process_entry_object, E.
      destruct (hash_key (e_repo e)); [apply IH | reflexivity].
    + cbn [entry_loop]. unfold bind. rewrite process_entry_object, E.
      apply IH.
  - cbn [negb orb entry_loop]. unfold bind.
    now rewrite !process_entry_not_object by assumption.
Qed.

(** How the reconciliation loop ends and what it sends depends on the
    process through the requests sent only. *)
Lemma ensure_repos_same_sent (repos : list (string * json)) :
  forall p q, sent p = sent q ->
    fst (ensure_repos w repos p) = fst (ensure_repos w repos q) /\
    sent (snd (ensure_repos w repos p)) = sent (snd (ensure_repos w repos q)).
Proof.
  induction repos as [|[owner repo] repos IH]; intros p q H; [now split |].
  cbn [ensure_repos]. unfold bind.
  destruct (ensure_repo_turn w owner repo p) as (Fp & _ & Sp & _).
  destruct (ensure_repo_turn w owner repo q) as (Fq & _ & Sq & _).
  rewrite <- H in Fq, Sq. rewrite <- Fq in Fp. rewrite <- Sq in Sp.
  destruct (ensure_repo w owner repo p) as [[u|c|e] p1];
    destruct (ensure_repo w owner repo q) as [[u'|c'|e'] q1];
    simpl in *; try discriminate Fp.
  - now apply IH.
  - split; [exact Fp | exact Sp].
  - split; [exact Fp | exact Sp].
Qed.

Lemma reconcile_same_sent (repos : list (string * json)) (p q : proc) :
  sent p = sent q ->
  fst (reconcile w repos p) = fst (reconcile w repos q) /\
  sent (snd (reconcile w repos p)) = sent (snd (reconcile w repos q)).
Proof.
  intros H. unfold reconcile. destruct repos as [|r repos]; [now split |].
  destruct (String.eqb (GH_PAT w) ""); [now split |].
  now apply ensure_repos_same_sent.
Qed.

(** X14.  The objects that the loop passes over with a warning, incomplete
    entries and entries with an unmapped language, have no part in the
    result: without them in the list the run ends in the same way, sends
    the same requests and writes the same README or none. *)
Theorem skipped_entries_do_not_matter (data : list json) :
  projects_json w = LoadOk (JList data) ->
  let w' := with_data w (drop_skipped repr_other data) in
  fst (run repr_other w) = fst (run repr_other w') /\
  sent (snd (run repr_other w)) = sent (snd (run repr_other w')) /\
  written (snd (run repr_other w)) = written (snd (run repr_other w')).
Proof.
  intros Hp w'.
  assert (Hp' : projects_json w' = LoadOk (JList (drop_skipped repr_other data)))
    by reflexivity.
  destruct (readme_md w) as [text| |name] eqn:Hr.
  2:{ rewrite (run_missing_readme repr_other w _ Hp Hr).
      rewrite (run_missing_readme repr_other w' _ Hp' Hr).
      now repeat split. }
  2:{ rewrite (run_read_failed repr_other w _ _ Hp Hr).
      rewrite (run_read_failed repr_other w' _ _ Hp' Hr).
      now repeat split. }
  rewrite (run_stages repr_other w _ _ Hp Hr).
  rewrite (run_stages repr_other w' _ _ Hp' Hr).
  change (key_order w') with (key_order w).
  destruct (stages_write_nothing repr_other w data text)
    as (Hs2 & Hw2 & _ & H3).
  destruct (stages_write_nothing repr_other w'
              (drop_skipped repr_other data) text) as (Hs2' & Hw2' & _ & H3').
  pose proof (entry_loop_drop_skipped data 1 1 groups0
                (after_scan text) (after_scan text)) as Hfst.
  rewrite (entry_loop_same_owner repr_other w w'
             (drop_skipped repr_other data) eq_refl) in Hfst.
  destruct (entry_loop repr_other w 1 data groups0 (after_scan text))
    as [[g|c|e] p2];
    destruct (entry_loop repr_other w' 1 (drop_skipped repr_other data)
                groups0 (after_scan text)) as [[g'|c'|e'] p2'];
    simpl in *; try discriminate Hfst;
    try (inversion Hfst; subst; repeat split; congruence).
  inversion Hfst; subst g'. clear Hfst.
  destruct (H3 (repos_needed g)) as (Hw3 & _).
  destruct (H3' (repos_needed g)) as (Hw3' & _).
  assert (Hsame : sent p2 = sent p2') by congruence.
  destruct (reconcile_same_sent (repos_needed g) p2 p2' Hsame) as (Hf3 & Hs3).
  change (reconcile w') with (reconcile w) in *.
  destruct (reconcile w (repos_needed g) p2) as [[u|c|e] p3];
    destruct (reconcile w (repos_needed g) p2') as [[u'|c'|e'] p3'];
    simpl in *; try discriminate Hf3;
    try (repeat split; congruence).
  destruct (fst (inject g _ text proc0)) as [new|c|e]; simpl;
    try (repeat split; congruence).
  rewrite !write_if_changed_cases.
  destruct (String.eqb new text); simpl; repeat split; congruence.
Qed.

End SkippedEntries.

(** An instance: four entries of which the loop passes over two. *)
Lemma skipped_entries_do_not_matter_witness :
  projects_json Sample2.w_mixed = LoadOk (JList Sample2.mixed_entries) /\
  let w' := with_data Sample2.w_mixed
              (drop_skipped Sample.no_repr Sample2.mixed_entries) in
  fst (run Sample.no_repr Sample2.w_mixed) = fst (run Sample.no_repr w') /\
  sent (snd (run Sample.no_repr Sample2.w_mixed))
  = sent (snd (run Sample.no_repr w')) /\
  written (snd (run Sample.no_repr Sample2.w_mixed))
  = written (snd (run Sample.no_repr w')).
Proof.
  split; [reflexivity |].
  exact (skipped_entries_do_not_matter Sample.no_repr Sample2.w_mixed
           Sample2.mixed_entries eq_refl).
Defined.

(** ** Owner and credential *)

Section Environment.
Import Str StrFacts Py Scanner.

Variable repr_other : json -> string.
Variable w : world.

Lemma skip_spaces_blank (v : string) :
  Str.forallb is_space v = true -> skip_spaces v = "".
Proof.
  induction v as [|c v IH]; simpl; [reflexivity |].
  intros H. apply andb_prop in H as [Hc Hv]. rewrite Hc. now apply IH.
Qed.

(** X15.  The owner is never empty and has no whitespace at its ends: it is
    the value of the environment variable without the whitespace around it,
    and the default owner when the variable is unset or blank. *)
Theorem owner_never_empty :
  GH_OWNER w <> "" /\
  strip (GH_OWNER w) = GH_OWNER w /\
  (forall v, env_GH_OWNER w = Some v -> strip v <> "" ->
             GH_OWNER w = strip v) /\
  (forall v, env_GH_OWNER w = Some v -> Str.forallb is_space v = true ->
             GH_OWNER w = "Thhundder") /\
  (env_GH_OWNER w = None -> GH_OWNER w = "Thhundder").
Proof.
  unfold GH_OWNER.
  split; [|split; [|split; [|split]]].
  - destruct (strip _); discriminate.
  - destruct (strip (match env_GH_OWNER w with
                     | Some v => v
                     | None => ""
                     end)) as [|c r] eqn:E; [reflexivity |].
    rewrite <- E. apply strip_idem.
  - intros v Hv Hne. rewrite Hv. now destruct (strip v).
  - intros v Hv Hb. rewrite Hv. unfold strip.
    now rewrite (skip_spaces_blank v Hb).
  - intros Hv. now rewrite Hv.
Qed.

Lemma run_without_credential_sends_nothing :
  GH_PAT w = "" -> sent (snd (run repr_other w)) = [].
Proof.
  intros Hpat.
  destruct (fatal_condition w) eqn:Hf.
  { destruct (run_fatal repr_other w Hf) as (m & Hm & _). now rewrite Hm. }
  destruct (unreadable w) eqn:Hu.
  { destruct (run_unreadable repr_other w Hu) as (n & Hn). now rewrite Hn. }
  destruct (run_not_fatal w Hf Hu) as (items & text & Hp & Hr).
  rewrite (run_stages repr_other w _ _ Hp Hr).
  destruct (stages_write_nothing repr_other w items text) as (Hs2 & _ & _ & _).
  destruct (entry_loop repr_other w 1 items groups0 (after_scan text))
    as [[g|c|e] p2]; simpl in *; try assumption.
  rewrite reconcile_without_credential by assumption.
  assert (Hs3 : sent match repos_needed g with
                     | [] => p2
                     | _ :: _ => add_msgs p2 [(Stderr, MsgNoPAT)]
                     end = []) by (now destruct (repos_needed g)).
  destruct (fst (inject g _ text proc0)) as [new|c|e]; simpl;
    try assumption.
  rewrite write_if_changed_cases.
  now destruct (String.eqb new text).
Qed.

(** X16.  A credential that consists of whitespace only counts as no
    credential: the run sends no request. *)
Theorem blank_credential_is_absent (v : string) :
  env_GH_PAT w = Some v -> Str.forallb is_space v = true ->
  GH_PAT w = "" /\ sent (snd (run repr_other w)) = [].
Proof.
  intros Hv Hb.
  assert (H : GH_PAT w = "").
  { unfold GH_PAT, strip. now rewrite Hv, (skip_spaces_blank v Hb). }
  split; [exact H | now apply run_without_credential_sends_nothing].
Qed.

End Environment.

(** An instance: a credential of three spaces. *)
Lemma blank_credential_is_absent_witness :
  env_GH_PAT Sample2.w_blank_pat = Some "   " /\
  Str.forallb Str.is_space "   " = true /\
  GH_PAT Sample2.w_blank_pat = "" /\
  sent (snd (run Sample.no_repr Sample2.w_blank_pat)) = [].
Proof.
  split; [reflexivity | split; [reflexivity |]].
  exact (blank_credential_is_absent Sample.no_repr Sample2.w_blank_pat "   "
           eq_refl eq_refl).
Defined.

(** ** The scanner *)

Section ScannerFurther.
Import Str StrFacts Scanner.

Lemma skip_spaces_suffix (s : string) : exists ws, s = ws ++ skip_spaces s.
Proof.
  induction s as [|c s [ws IH]]; simpl; [now exists "" |].
  destruct (is_space c); [|now exists ""].
  exists (String c ws). simpl. now rewrite <- IH.
Qed.

Lemma take_key_split (s : string) :
  s = fst (take_key s) ++ snd (take_key s).
Proof.
  induction s as [|c s IH]; simpl; [reflexivity |].
  destruct (is_key_char c); [|reflexivity].
  destruct (take_key s) as [k r]. simpl in *. now rewrite <- IH.
Qed.

(** A start sentinel at the front names its key in the text. *)
Lemma match_start_text (text key rest : string) :
  match_start text = Some (key, rest) ->
  key <> "" /\
  exists x y, text = x ++ ("PROJECTS:" ++ key ++ ":START") ++ y.
Proof.
  unfold match_start, and_then.
  destruct (strip_prefix "<!--" text) as [r1|] eqn:E1; [|discriminate].
  destruct (strip_prefix "PROJECTS:" (skip_spaces r1)) as [r2|] eqn:E2;
    [|discriminate].
  pose proof (take_key_split r2) as Hk.
  destruct (take_key r2) as [k r3]. simpl in Hk.
  destruct (String.eqb_spec k "") as [|Hne]; [discriminate |].
  destruct (strip_prefix ":START" r3) as [r4|] eqn:E4; [|discriminate].
  destruct (strip_prefix "-->" (skip_spaces r4)) as [r5|]; [|discriminate].
  intros H. inversion H. subst k r5. split; [exact Hne |].
  apply strip_prefix_sound in E1, E2, E4.
  destruct (skip_spaces_suffix r1) as [ws Hws].
  exists ("<!--" ++ ws), r4.
  rewrite E1, Hws, E2, Hk, E4. now rewrite !app_assoc.
Qed.

(** A key in the result of the scan was matched somewhere in the text. *)
Lemma findall_keys_matched (text : string) :
  forall skip key,
    In key (findall_keys skip text) ->
    exists pre t rest, text = pre ++ t /\ match_pair t = Some (key, rest).
Proof.
  induction text as [|c text IH]; intros skip key; simpl; [contradiction |].
  assert (Hnext : forall n, In key (findall_keys n text) ->
            exists pre t rest,
              String c text = pre ++ t /\ match_pair t = Some (key, rest)).
  { intros n Hn. destruct (IH n key Hn) as (pre & t & rest & Ht & Hm).
    exists (String c pre), t, rest. simpl. now rewrite <- Ht. }
  destruct skip as [|skip]; [|apply Hnext].
  destruct (match_pair (String c text)) as [[k rest]|] eqn:E; [|apply Hnext].
  intros [<-|Hin]; [|now apply Hnext in Hin].
  now exists "", (String c text), rest.
Qed.

Lemma set_of_nodup (l : list string) : NoDup (set_of l).
Proof.
  induction l as [|x l IH]; simpl; constructor.
  - intros H. apply filter_In in H as [_ H].
    now rewrite String.eqb_refl in H.
  - now apply NoDup_filter.
Qed.

(** X17.  The scanner returns a set: no key twice.  Every key in it is not
    empty, consists of letters, digits, [+] and [-], and stands in the
    README in a start sentinel, between [PROJECTS:] and [:START]. *)
Theorem scanned_keys_are_keys (text : string) :
  NoDup (collect_readme_marker_keys text) /\
  forall key,
    In key (collect_readme_marker_keys text) ->
    key <> "" /\
    Str.forallb is_key_char key = true /\
    exists a b, text = a ++ ("PROJECTS:" ++ key ++ ":START") ++ b.
Proof.
  split; [apply set_of_nodup |].
  intros key H. apply set_of_in in H.
  pose proof (findall_keys_chars text 0 key H) as Hc.
  destruct (findall_keys_matched text 0 key H) as (pre & t & rest & Ht & Hm).
  unfold match_pair, and_then in Hm.
  destruct (match_start t) as [[k r]|] eqn:Es; [|discriminate].
  destruct (find_end k r); [|discriminate].
  inversion Hm; subst k.
  destruct (match_start_text t key r Es) as (Hne & x & y & Hx).
  repeat split; try assumption.
  exists (pre ++ x), y. rewrite Ht, Hx. now rewrite !app_assoc.
Qed.

Lemma take_key_colon (k x : string) :
  Str.forallb is_key_char k = true ->
  take_key (k ++ String ":" x) = (k, String ":" x).
Proof.
  induction k as [|c k IH]; simpl; [reflexivity |].
  intros H. apply andb_prop in H as [Hc Hk]. now rewrite Hc, (IH Hk).
Qed.

Lemma match_start_canonical (key x : string) :
  key <> "" -> Str.forallb is_key_char key = true ->
  match_start (start_marker key ++ x) = Some (key, x).
Proof.
  intros Hne Hk. unfold start_marker. rewrite !app_assoc.
  unfold match_start, and_then. simpl.
  rewrite (take_key_colon key _ Hk).
  destruct (String.eqb_spec key "") as [|_]; [contradiction | reflexivity].
Qed.

Lemma match_end_canonical (key x : string) :
  match_end key (end_marker key ++ x) = Some x.
Proof.
  unfold end_marker. rewrite !app_assoc.
  unfold match_end, and_then. simpl.
  rewrite strip_prefix_app. reflexivity.
Qed.

Lemma find_end_suffix (key a x : string) :
  match_end key x <> None -> find_end key (a ++ x) <> None.
Proof.
  intros H. induction a as [|c a IH]; simpl.
  - destruct (match_end key x) as [r|] eqn:E; [|congruence].
    destruct x; cbn [find_end]; rewrite E; discriminate.
  - destruct (match_end key (String c (a ++ x))); [discriminate | exact IH].
Qed.

(** No match begins at a character other than [<]. *)
Lemma match_pair_other (c : ascii) (t : string) :
  Ascii.eqb c "<" = false -> match_pair (String c t) = None.
Proof.
  intros H. unfold match_pair, match_start, and_then.
  change (strip_prefix "<!--" (String c t))
    with (if Ascii.eqb "<" c then strip_prefix "!--" t else None).
  now rewrite Ascii.eqb_sym, H.
Qed.

Lemma findall_keys_skip_plain (pre rest : string) :
  Str.forallb (fun c => negb (Ascii.eqb c "<")) pre = true ->
  findall_keys 0 (pre ++ rest) = findall_keys 0 rest.
Proof.
  induction pre as [|c pre IH]; [reflexivity |].
  intros H. cbn [Str.forallb] in H. apply andb_prop in H as [Hc Hp].
  apply negb_true_iff in Hc.
  change (String c pre ++ rest) with (String c (pre ++ rest)).
  cbn [findall_keys]. rewrite (match_pair_other c _ Hc).
  now apply IH.
Qed.

Lemma set_of_has (l : list string) (x : string) : In x l -> In x (set_of l).
Proof.
  induction l as [|y l IH]; simpl; [trivial |].
  intros [->|H]; [now left |].
  destruct (String.eqb_spec y x) as [->|Hne]; [now left |].
  right. apply filter_In. split; [now apply IH |].
  apply negb_true_iff. now apply String.eqb_neq.
Qed.

(** X18.  The scanner finds the key of a pair of sentinels written with one
    space on each side, the form the replacement looks for, when the key is
    not empty and made of key characters and no [<] stands before the
    pair. *)
Theorem scanner_finds_canonical_pair (key pre inner post : string) :
  key <> "" -> Str.forallb is_key_char key = true ->
  Str.forallb (fun c => negb (Ascii.eqb c "<")) pre = true ->
  In key (collect_readme_marker_keys
            (pre ++ start_marker key ++ inner ++ end_marker key ++ post)).
Proof.
  intros Hne Hk Hpre. apply set_of_has.
  rewrite (findall_keys_skip_plain pre _ Hpre).
  assert (Hm : exists rest,
             match_pair (start_marker key ++ inner ++ end_marker key ++ post)
             = Some (key, rest)).
  { unfold match_pair, and_then.
    rewrite (match_start_canonical key _ Hne Hk).
    assert (He : find_end key (inner ++ end_marker key ++ post) <> None).
    { apply find_end_suffix. rewrite match_end_canonical. discriminate. }
    destruct (find_end key (inner ++ end_marker key ++ post)) as [r|];
      [now exists r | congruence]. }
  destruct Hm as [rest Hm].
  remember (start_marker key ++ inner ++ end_marker key ++ post) as doc.
  destruct doc as [|c doc].
  - unfold start_marker in Heqdoc. discriminate.
  - simpl. rewrite Hm. now left.
Qed.

End ScannerFurther.

(** An instance: a table cell with a region for C++. *)
Lemma scanner_finds_canonical_pair_witness :
  "cpp" <> "" /\ Str.forallb Scanner.is_key_char "cpp" = true /\
  Str.forallb (fun c => negb (Ascii.eqb c "<")) "| C++ | " = true /\
  In "cpp" (Scanner.collect_readme_marker_keys
              ("| C++ | " ++ start_marker "cpp" ++ "old" ++ end_marker "cpp"
               ++ " |")).
Proof.
  assert (H : "cpp" <> "") by discriminate.
  split; [exact H | split; [reflexivity | split; [reflexivity |]]].
  exact (scanner_finds_canonical_pair "cpp" "| C++ | " "old" " |"
           H eq_refl eq_refl).
Defined.

(** ** What the README depends on *)

Section Independence.
Import Str StrFacts Py.

Variable repr_other : json -> string.

(** X19.  Unless an exception out of a creation request ends a run, neither
    the credential nor the answers of the network have a part in how the run
    ends or in what it writes: two runs with the same owner, entry list,
    README and iteration order whose creation requests return end in the
    same way and write the same README or none.  And whatever the network
    answers, the README that one run writes the other writes too, unless an
    exception ends it, and then it writes nothing. *)
Theorem network_does_not_affect_readme (w w' : world) :
  same_but_credential w w' ->
  (creations_return w -> creations_return w' ->
   fst (run repr_other w) = fst (run repr_other w') /\
   written (snd (run repr_other w)) = written (snd (run repr_other w'))) /\
  (forall new_readme,
     written (snd (run repr_other w)) = Some new_readme ->
     written (snd (run repr_other w')) = Some new_readme \/
     (exists name, fst (run repr_other w') = Raised (OtherError name)) /\
     written (snd (run repr_other w')) = None).
Proof.
  intros (Hown & Hproj & Hread & Hord). apply same_owner in Hown.
  destruct (fatal_condition w) eqn:Hf.
  { assert (Hf' : fatal_condition w' = true)
      by (unfold fatal_condition in *; now rewrite <- Hproj, <- Hread).
    destruct (run_fatal repr_other w Hf) as (m & Hm & _).
    destruct (run_fatal repr_other w' Hf') as (m' & Hm' & _).
    rewrite Hm, Hm'. simpl. split; [now split | discriminate]. }
  destruct (unreadable w) eqn:Hu.
  { unfold unreadable in Hu.
    destruct (projects_json w) as [data| | |name] eqn:Hp; try discriminate.
    - destruct data; try discriminate.
      destruct (readme_md w) as [| |name] eqn:Hr; try discriminate.
      rewrite (run_read_failed repr_other w _ _ Hp Hr).
      rewrite (run_read_failed repr_other w' xs name) by congruence.
      simpl. split; [now split | discriminate].
    - rewrite (run_load_failed repr_other w _ Hp).
      rewrite (run_load_failed repr_other w' name) by congruence.
      simpl. split; [now split | discriminate]. }
  destruct (run_not_fatal w Hf Hu) as (items & text & Hp & Hr).
  rewrite (run_stages repr_other w _ _ Hp Hr).
  rewrite (run_stages repr_other w' items text) by congruence.
  rewrite <- Hord.
  rewrite <- (entry_loop_same_owner repr_other w w' items Hown).
  destruct (stages_write_nothing repr_other w items text)
    as (_ & Hw2 & _ & _).
  destruct (entry_loop repr_other w 1 items groups0 (after_scan text))
    as [[g|c|e] p2]; simpl in *;
    try (split; [now split | congruence]).
  destruct (reconcile_frame w (repos_needed g) p2) as (He3 & Hw3 & _).
  destruct (reconcile_frame w' (repos_needed g) p2) as (He3' & Hw3' & _).
  split.
  - intros Hq Hq'.
    destruct (reconcile_ok w (repos_needed g) p2 Hq) as (p3 & H3 & _).
    destruct (reconcile_ok w' (repos_needed g) p2 Hq') as (p3' & H3' & _).
    rewrite H3 in *. rewrite H3' in *. simpl in *.
    destruct (fst (inject g _ text proc0)) as [new|c|e]; simpl;
      try (split; congruence).
    rewrite !write_if_changed_cases.
    destruct (String.eqb new text); simpl; split; congruence.
  - intros new_readme.
    destruct (reconcile w (repos_needed g) p2) as [[u|c|e] p3]; simpl in *;
      try congruence.
    destruct (reconcile w' (repos_needed g) p2) as [[u'|c'|e'] p3'] eqn:H3';
      simpl in *.
    + destruct (fst (inject g _ text proc0)) as [new|c|e]; simpl;
        try congruence.
      rewrite !write_if_changed_cases.
      destruct (String.eqb new text); simpl; [congruence |].
      intros H. now left.
    + now destruct (He3' c').
    + intros _. right. split; [|congruence].
      unfold reconcile in H3'.
      destruct (repos_needed g) as [|r rs]; [discriminate H3' |].
      destruct (String.eqb (GH_PAT w') ""); [discriminate H3' |].
      clear -H3'. revert p2 H3'.
      generalize (r :: rs). intros repos.
      induction repos as [|[owner repo] repos IH]; intros p2 H;
        [discriminate H |].
      cbn [ensure_repos] in H. unfold bind in H.
      destruct (ensure_repo_turn w' owner repo p2) as (Hf & _).
      destruct (ensure_repo w' owner repo p2) as [[u|c|e] p1]; simpl in Hf.
      * now apply IH with p1.
      * discriminate H.
      * inversion H; subst e'.
        destruct (reports_missing _); [|discriminate Hf].
        unfold creation_raises in Hf.
        destruct (network w' _ _) as [s|c| |c n|n];
          try discriminate Hf.
        -- destruct (c =? 422)%Z; [discriminate Hf |].
           inversion Hf. now eexists.
        -- inversion Hf. now eexists.
Qed.

End Independence.

(** An instance: a network that answers 200 and one that answers 500. *)
Lemma network_does_not_affect_readme_witness :
  same_but_credential Sample.w_twice Sample.w_failing /\
  (creations_return Sample.w_twice -> creations_return Sample.w_failing ->
   fst (run Sample.no_repr Sample.w_twice)
   = fst (run Sample.no_repr Sample.w_failing) /\
   written (snd (run Sample.no_repr Sample.w_twice))
   = written (snd (run Sample.no_repr Sample.w_failing))) /\
  (forall new_readme,
     written (snd (run Sample.no_repr Sample.w_twice)) = Some new_readme ->
     written (snd (run Sample.no_repr Sample.w_failing)) = Some new_readme \/
     (exists name,
        fst (run Sample.no_repr Sample.w_failing) = Raised (OtherError name)) /\
     written (snd (run Sample.no_repr Sample.w_failing)) = None).
Proof.
  assert (H : same_but_credential Sample.w_twice Sample.w_failing)
    by (repeat split; reflexivity).
  split; [exact H |].
  exact (network_does_not_affect_readme Sample.no_repr
           Sample.w_twice Sample.w_failing H).
Defined.

Section Clearing.
Import Str StrFacts Py.

Variable repr_other : json -> string.
Variable w : world.


End Clearing.

